(** * The mistake-detection scorer of [api/scorer.py]

    A shallow embedding of the scoring engine: the normalizer, the
    complexity-notation detector, the substring, lemma and fuzzy stages,
    the per-category pipeline [_matches_any] and the pair scorer
    [score_pair], followed by the properties established about them.

    Texts are Python [str] values.  They are modelled as lists of code
    points below 256 (the Latin-1 block, Rocq's [ascii]); on that block
    Python's Unicode tables for whitespace, alphanumerics and lower-casing
    are written out in full, and all operations the scorer uses stay inside
    it.  The two external libraries are parameters: the optional spaCy
    pipeline [nlp] and rapidfuzz's [fuzz.token_sort_ratio], a score taken
    in the rationals; [process.extractOne] is written after its documented
    behaviour, the first choice of highest score.  Exceptions are values:
    a function that can raise returns [exn + result].

    Beside the scorer, the file embeds the session store of
    [api/session_store.py], the session routes of [api/app.py] and, from
    [api/orchestrator.py], the mistake hint and the canned teacher
    replies. *)

From Stdlib Require Import List Ascii String ZArith QArith Lia Bool DecimalString.
From stdpp Require Import gmap strings.
Import ListNotations.

Local Open Scope list_scope.
Local Open Scope bool_scope.

(** ** Python strings *)

Abbreviation pystr := (list ascii).

(** A string literal of the source. *)
Definition str (s : string) : pystr := list_ascii_of_string s.

Module Py.

Definition code (c : ascii) : N := N_of_ascii c.

Definition between (lo hi : N) (c : ascii) : bool :=
  (lo <=? code c)%N && (code c <=? hi)%N.

Definition chr_eqb (a b : ascii) : bool := (code a =? code b)%N.

Fixpoint str_eqb (a b : pystr) : bool :=
  match a, b with
  | [], [] => true
  | x :: a', y :: b' => chr_eqb x y && str_eqb a' b'
  | _, _ => false
  end.

(** [str.isspace], which is also [\s] of [re] and the separator set of
    [str.split()] and [str.strip()]: TAB..CR, FS..US, space, NEL, NBSP. *)
Definition isspace (c : ascii) : bool :=
  between 9 13 c || between 28 32 c || (code c =? 133)%N || (code c =? 160)%N.

Definition is_ascii_alnum (c : ascii) : bool :=
  between 48 57 c || between 65 90 c || between 97 122 c.

(** Alphanumeric code points of the Latin-1 block (letters, digits and
    the numeric characters such as superscript two and one half). *)
Definition isalnum (c : ascii) : bool :=
  is_ascii_alnum c
  || (code c =? 170)%N || between 178 179 c || (code c =? 181)%N
  || between 185 186 c || between 188 190 c
  || between 192 214 c || between 216 246 c || between 248 255 c.

(** [\w] of [re] on [str] patterns: alphanumeric or underscore. *)
Definition isword (c : ascii) : bool := isalnum c || (code c =? 95)%N.

(** [str.lower] on one code point up to U+00FF.  Beyond that range
    [str.lower] has further cases (U+212A lowers to k), which no text of
    type [pystr] holds. *)
Definition lower_char (c : ascii) : ascii :=
  if between 65 90 c || between 192 214 c || between 216 222 c
  then ascii_of_N (code c + 32) else c.

Definition lower (s : pystr) : pystr := map lower_char s.

Fixpoint lstrip (s : pystr) : pystr :=
  match s with
  | c :: s' => if isspace c then lstrip s' else s
  | [] => []
  end.

Definition rstrip (s : pystr) : pystr := rev (lstrip (rev s)).

(** [s.strip()] *)
Definition strip (s : pystr) : pystr := rstrip (lstrip s).

(** [s.split()]: the maximal runs of non-whitespace characters. *)
Fixpoint split (s : pystr) : list pystr :=
  match s with
  | [] => []
  | c :: s' =>
      if isspace c then split s'
      else match s' with
           | [] => [[c]]
           | d :: _ =>
               if isspace d then [c] :: split s'
               else match split s' with
                    | t :: ts => (c :: t) :: ts
                    | [] => [[c]]
                    end
           end
  end.

(** [sep.join(parts)] *)
Fixpoint join (sep : pystr) (parts : list pystr) : pystr :=
  match parts with
  | [] => []
  | [p] => p
  | p :: ps => p ++ sep ++ join sep ps
  end.

(** [s.replace(old, new)] for a one-character [old]. *)
Definition replace (old : ascii) (new : pystr) (s : pystr) : pystr :=
  flat_map (fun c => if chr_eqb c old then new else [c]) s.

Fixpoint startswith (p s : pystr) : bool :=
  match p, s with
  | [], _ => true
  | x :: p', y :: s' => chr_eqb x y && startswith p' s'
  | _ :: _, [] => false
  end.

(** [p in s] on strings: [p] occurs as a contiguous substring of [s]. *)
Fixpoint contains (p s : pystr) : bool :=
  startswith p s
  || match s with
     | [] => false
     | _ :: s' => contains p s'
     end.

(** [x in xs] on a collection of strings. *)
Definition mem (x : pystr) (xs : list pystr) : bool := existsb (str_eqb x) xs.

(** [str(n)] for an integer. *)
Definition str_of_int (n : Z) : pystr := str (NilZero.string_of_int (Z.to_int n)).

(** [xs[i:i+n]] *)
Definition slice {A} (i n : nat) (xs : list A) : list A := firstn n (skipn i xs).

(** [range(hi, 0, -1)] *)
Fixpoint range_down (hi : nat) : list nat :=
  match hi with
  | O => []
  | S k => hi :: range_down k
  end.

(** The first value a loop body returns, in iteration order. *)
Fixpoint first_some {A B} (f : A -> option B) (xs : list A) : option B :=
  match xs with
  | [] => None
  | x :: xs' => match f x with
                | Some y => Some y
                | None => first_some f xs'
                end
  end.

(** [x or ""] for a possibly missing text. *)
Definition or_empty (x : option pystr) : pystr :=
  match x with
  | Some s => s
  | None => []
  end.

(** Truth value of a string. *)
Definition truthy (s : pystr) : bool :=
  match s with
  | [] => false
  | _ => true
  end.

End Py.

(** ** Regular expressions of [re], as far as the scorer uses them *)

Module Re.

Inductive regex : Type :=
| Eps                          (* the empty pattern *)
| Chr (p : ascii -> bool)      (* one character: a literal or a class *)
| Bound                        (* \b *)
| Seq (r1 r2 : regex)
| Alt (r1 r2 : regex)          (* r1|r2, r1 tried first *)
| Opt (r : regex)              (* r?, greedy *)
| Star (p : ascii -> bool).    (* c*, greedy, over a one-character class *)

Definition is_word_opt (c : option ascii) : bool :=
  match c with
  | Some x => Py.isword x
  | None => false
  end.

(** [\b]: exactly one of the two neighbouring positions holds a word
    character; the ends of the string count as non-word. *)
Definition at_boundary (prev : option ascii) (s : pystr) : bool :=
  xorb (is_word_opt prev) (is_word_opt (head s)).

Definition orelse {A} (x y : option A) : option A :=
  match x with
  | Some _ => x
  | None => y
  end.

(** Backtracking matcher.  [rmatch r prev s k] matches [r] at the head
    of [s], [prev] being the character just before, and hands the
    position reached to the continuation [k]; alternatives are explored
    in the priority order of [re]. The result is the unmatched rest. *)
Fixpoint rmatch (r : regex) (prev : option ascii) (s : pystr)
    (k : option ascii -> pystr -> option pystr) : option pystr :=
  match r with
  | Eps => k prev s
  | Chr p =>
      match s with
      | c :: s' => if p c then k (Some c) s' else None
      | [] => None
      end
  | Bound => if at_boundary prev s then k prev s else None
  | Seq r1 r2 => rmatch r1 prev s (fun prev' s' => rmatch r2 prev' s' k)
  | Alt r1 r2 => orelse (rmatch r1 prev s k) (rmatch r2 prev s k)
  | Opt r1 => orelse (rmatch r1 prev s k) (k prev s)
  | Star p =>
      (fix loop (prev : option ascii) (s : pystr) : option pystr :=
         match s with
         | c :: s' =>
             if p c then orelse (loop (Some c) s') (k prev s) else k prev s
         | [] => k prev s
         end) prev s
  end.

Definition match_at (r : regex) (prev : option ascii) (s : pystr) : option pystr :=
  rmatch r prev s (fun _ rest => Some rest).

Fixpoint search_from (r : regex) (prev : option ascii) (s : pystr) : bool :=
  match match_at r prev s with
  | Some _ => true
  | None =>
      match s with
      | [] => false
      | c :: s' => search_from r (Some c) s'
      end
  end.

(** [bool(rx.search(s))] *)
Definition search (r : regex) (s : pystr) : bool := search_from r None s.

(** [re.sub] scans left to right; [skip] counts the characters of the
    current match still to be dropped.  Both patterns substituted by the
    scorer consume at least one character, so a zero-length match is
    left as no match. *)
Fixpoint sub_from (r : regex) (repl : pystr) (skip : nat)
    (prev : option ascii) (s : pystr) : pystr :=
  match s with
  | [] => []
  | c :: s' =>
      match skip with
      | S n => sub_from r repl n (Some c) s'
      | O =>
          match match_at r prev s with
          | Some rest =>
              match (length s - length rest)%nat with
              | S n => repl ++ sub_from r repl n (Some c) s'
              | O => c :: sub_from r repl O (Some c) s'
              end
          | None => c :: sub_from r repl O (Some c) s'
          end
      end
  end.

(** [re.sub(r, repl, s)] *)
Definition sub (r : regex) (repl : pystr) (s : pystr) : pystr :=
  sub_from r repl O None s.

(** A literal character under [re.I]: on this block the only
    case-insensitive partners are the ASCII upper and lower case forms. *)
Definition lit (c : ascii) : regex :=
  Chr (fun x => Py.chr_eqb (Py.lower_char x) (Py.lower_char c)).

(** A character set [[...]]. *)
Definition set (cs : string) : regex :=
  Chr (fun x => existsb (Py.chr_eqb x) (str cs)).

(** [\s*] *)
Definition ws : regex := Star Py.isspace.

(** [\s] *)
Definition sp : regex := Chr Py.isspace.

(** A literal word under [re.I]. *)
Definition word (s : string) : regex :=
  fold_right (fun c r => Seq (lit c) r) Eps (str s).

Declare Scope re_scope.
Delimit Scope re_scope with re.
Bind Scope re_scope with regex.
Notation "a >> b" := (Seq a b) (at level 59, right associativity) : re_scope.
Notation "a <|> b" := (Alt a b) (at level 64, right associativity) : re_scope.
Arguments lit c%_char.

End Re.

(** ** The scorer *)

(** *** Patterns *)

Definition PEER_INDICATORS : gmap pystr (list pystr) :=
  list_to_map
    [ (str "complexity",
       map str
         [ "o(n^2)"; "o(n*n)"; "n^2"; "n2"; "quadratic"; "o(n^3)"; "n log n";
           "o(n log n)"; "o(nlogn)"; "polynomial"; "o(v*e)"; "o(v+e)";
           "o(n * k log k)"; "o(n*k*log k)"; "o(n*k log k)";
           "exponential"; "2^n"; "o(2^n)" ]);
      (str "off_by_one",
       map str
         [ "off-by-one"; "off by one"; "n-1"; "n + 1"; "n+1"; "i <= n";
           "index out of range"; "one too many"; "off by" ]);
      (str "missing_base_case",
       map str
         [ "base case"; "if n == 1"; "if n == 0"; "no base case"; "missing base";
           "if not lst"; "null checks"; "empty list"; "empty lists";
           "don't check empty"; "won't check empty"; "won't check";
           "skip empty"; "forget base"; "missing base case"; "no base case" ]);
      (str "edge_case",
       map str
         [ "edge case"; "handle empty"; "handle negative"; "watch out for empty";
           "check for none"; "negative"; "fails with negative"; "empty"; "null";
           "ignoring"; "odd/even"; "odd vs even"; "odd and even"; "odd even";
           "odd vs even lengths"; "odd vs even length" ]);
      (str "inefficient",
       map str
         [ "nested loop"; "nested loops"; "pairwise";
           "compare each with every other"; "pair wise"; "inefficient";
           "n^2"; "quadratic"; "o(n log n)"; "sorting each string";
           "sort each string"; "sort each"; "sorting each"; "o(n * k log k)";
           "n * k log k"; "n k log k" ]) ].

Definition TEACHER_INDICATORS : gmap pystr (list pystr) :=
  list_to_map
    [ (str "complexity",
       map str
         [ "o(n)"; "linear"; "linear time"; "o(2^n)"; "2^n"; "exponential";
           "o(n log n)"; "o(v+e)"; "o(v + e)"; "o(n*k)"; "o(n * k)" ]);
      (str "off_by_one",
       map str
         [ "off-by-one"; "off by one"; "clarify whether n is 1-based";
           "one-based"; "zero-based"; "fix index"; "use <= vs <"; "off by" ]);
      (str "missing_base_case",
       map str
         [ "base case"; "handle empty"; "return 0"; "add a base case";
           "check for empty list"; "base-case checks"; "base case check" ]);
      (str "edge_case",
       map str
         [ "edge case"; "handle empty"; "handle negative"; "watch out for empty";
           "check for none"; "null"; "empty keys"; "fails with negative";
           "bellman-ford"; "odd/even"; "odd vs even"; "odd even";
           "odd/even splits" ]);
      (str "inefficient",
       map str
         [ "optimize"; "avoid nested"; "two-pointer"; "linear time"; "o(n)";
           "use hashmap"; "use memo"; "use dp"; "inefficient"; "o(n*k)";
           "use letter counts"; "letter counts"; "count characters" ]) ].

(** [table.get(m, [])] *)
Definition indicators (table : gmap pystr (list pystr)) (m : pystr) : list pystr :=
  default [] (table !! m).

(** *** Regex detectors for complexity notation *)

Module Detectors.
Import Re.
Local Open Scope re_scope.

(** [\b(?:o\(?\s*n\s*[\^*]\s*2\)?|n\s*[\^*]\s*2|n\s*\*\s*n)\b] *)
Definition quadratic : regex :=
  Bound >>
  ( (lit "o" >> Opt (lit "(") >> ws >> lit "n" >> ws >> set "^*" >> ws >> lit "2" >> Opt (lit ")"))
    <|> (lit "n" >> ws >> set "^*" >> ws >> lit "2")
    <|> (lit "n" >> ws >> lit "*" >> ws >> lit "n") ) >>
  Bound.

(** [\b(?:o\(?\s*2\s*[\^]\s*n\)?|2\s*[\^]\s*n|exponential|2\^n)\b] *)
Definition exponential : regex :=
  Bound >>
  ( (lit "o" >> Opt (lit "(") >> ws >> lit "2" >> ws >> set "^" >> ws >> lit "n" >> Opt (lit ")"))
    <|> (lit "2" >> ws >> set "^" >> ws >> lit "n")
    <|> word "exponential"
    <|> (lit "2" >> lit "^" >> lit "n") ) >>
  Bound.

(** [\b(?:o\(?\s*n\)?|linear(?:\s*time)?)\b] *)
Definition linear : regex :=
  Bound >>
  ( (lit "o" >> Opt (lit "(") >> ws >> lit "n" >> Opt (lit ")"))
    <|> (word "linear" >> Opt (ws >> word "time")) ) >>
  Bound.

(** [\b(?:n\s*(?:\*|\s)?\s*log\s*n|n\s*log\s*n|o\(?\s*n\s*log\s*n\)?)\b] *)
Definition nlogn : regex :=
  Bound >>
  ( (lit "n" >> ws >> Opt (lit "*" <|> sp) >> ws >> word "log" >> ws >> lit "n")
    <|> (lit "n" >> ws >> word "log" >> ws >> lit "n")
    <|> (lit "o" >> Opt (lit "(") >> ws >> lit "n" >> ws >> word "log" >> ws >> lit "n" >> Opt (lit ")")) ) >>
  Bound.

(** [\b(?:v\s*[\+&]\s*e|v\s*\+\s*e|v\+e|o\(?\s*v\s*\+\s*e\)?)\b] *)
Definition vplusE : regex :=
  Bound >>
  ( (lit "v" >> ws >> set "+&" >> ws >> lit "e")
    <|> (lit "v" >> ws >> lit "+" >> ws >> lit "e")
    <|> (lit "v" >> lit "+" >> lit "e")
    <|> (lit "o" >> Opt (lit "(") >> ws >> lit "v" >> ws >> lit "+" >> ws >> lit "e" >> Opt (lit ")")) ) >>
  Bound.

(** [\b(?:n\s*(?:\*|\s)?\s*k\s*(?:\*|\s)?\s*log\s*k|o\(?\s*n\s*\*\s*k\s*log\s*k\)?)\b] *)
Definition n_k_logk : regex :=
  Bound >>
  ( (lit "n" >> ws >> Opt (lit "*" <|> sp) >> ws >> lit "k" >> ws >>
       Opt (lit "*" <|> sp) >> ws >> word "log" >> ws >> lit "k")
    <|> (lit "o" >> Opt (lit "(") >> ws >> lit "n" >> ws >> lit "*" >> ws >> lit "k" >> ws >>
           word "log" >> ws >> lit "k" >> Opt (lit ")")) ) >>
  Bound.

(** [\b(?:n\s*(?:\*|\s)\s*k|n\s+k)\b] *)
Definition n_k : regex :=
  Bound >>
  ( (lit "n" >> ws >> (lit "*" <|> sp) >> ws >> lit "k")
    <|> (lit "n" >> sp >> ws >> lit "k") ) >>
  Bound.

(** [\bvs\b], used with [re.I] by the normalizer. *)
Definition vs_word : regex := Bound >> word "vs" >> Bound.

(** The characters the normalizer keeps: [0-9A-Za-z\s\^\*\(\)\+\-]. *)
Definition kept (c : ascii) : bool :=
  Py.is_ascii_alnum c || Py.isspace c || existsb (Py.chr_eqb c) (str "^*()+-").

(** [[^0-9A-Za-z\s\^\*\(\)\+\-]] *)
Definition stray : regex := Chr (fun c => negb (kept c)).

End Detectors.

(** The detector table, in the iteration order of the dict literal. *)
Definition COMPLEXITY_REGEX : list (pystr * Re.regex) :=
  [ (str "quadratic", Detectors.quadratic);
    (str "exponential", Detectors.exponential);
    (str "linear", Detectors.linear);
    (str "nlogn", Detectors.nlogn);
    (str "vplusE", Detectors.vplusE);
    (str "n_k_logk", Detectors.n_k_logk);
    (str "n_k", Detectors.n_k) ].

(** *** Fuzzy settings *)

Definition FUZZY_SCORE_THRESHOLD : Z := 82.
Definition SHORT_PHRASE_FUZZY_THRESHOLD : Z := 88.

(** *** Normalization *)

Definition _normalize_keep_paren (text : pystr) : pystr :=
  if negb (Py.truthy text) then []
  else
    let t := Py.strip text in
    let t := Py.replace "/" (str " ") t in
    let t := Re.sub Detectors.vs_word (str " vs ") t in
    let t := Re.sub Detectors.stray (str " ") t in
    let t := Py.join (str " ") (Py.split t) in
    Py.lower t.

(** *** Matching pipeline *)

Definition _regex_complexity_detect (text : pystr) : option (pystr * pystr) :=
  Py.first_some
    (fun kr : pystr * Re.regex =>
       if Re.search (snd kr) text then Some (fst kr, str "regex") else None)
    COMPLEXITY_REGEX.

Definition _contains_any_substring (text : pystr) (patterns : list pystr) : option pystr :=
  let txt := _normalize_keep_paren text in
  Py.first_some (fun p => if Py.contains p txt then Some p else None) patterns.

(** A token of a spaCy document, with the two attributes the scorer reads. *)
Record Token : Type := { lemma_ : pystr; is_space : bool }.

(** Exceptions that the modelled code can meet. *)
Inductive exn : Type := TypeError | KeyError.

(** [int(x)] on a score: truncation towards zero. *)
Definition int_of_score (q : Q) : Z := Z.quot (Qnum q) (Zpos (Qden q)).

Definition Qgtb (a b : Q) : bool := negb (Qle_bool a b).

Section Scorer.

(** The spaCy pipeline loaded at import time, [None] when loading failed. *)
Variable nlp : option (pystr -> list Token).

(** [rapidfuzz.fuzz.token_sort_ratio], a similarity between 0 and 100. *)
Variable token_sort_ratio : pystr -> pystr -> Q.

Definition _lemmatize_tokens (text : pystr) : list pystr :=
  if negb (Py.truthy text) then []
  else
    match nlp with
    | None => Py.split (_normalize_keep_paren text)
    | Some run =>
        map (fun tok => Py.lower (lemma_ tok))
            (List.filter (fun tok => negb (is_space tok)) (run text))
    end.

Definition _lemma_token_match (text : pystr) (patterns : list pystr) : option pystr :=
  let tokens := _lemmatize_tokens text in
  match tokens with
  | [] => None
  | _ =>
      let token_set := tokens in
      match
        Py.first_some
          (fun p =>
             let p_norm := _normalize_keep_paren p in
             let p_tokens := Py.split p_norm in
             if forallb (fun pt => Py.mem pt token_set) p_tokens then Some p else None)
          patterns
      with
      | Some p => Some p
      | None =>
          let L := length tokens in
          Py.first_some
            (fun n =>
               Py.first_some
                 (fun i =>
                    let gram := Py.join (str " ") (Py.slice i n tokens) in
                    Py.first_some
                      (fun p =>
                         if Py.str_eqb (_normalize_keep_paren p) gram then Some p else None)
                      patterns)
                 (seq 0 (L - n + 1)))
            (Py.range_down (Nat.min 5 L))
      end
  end.

(** [rapidfuzz.process.extractOne(query, choices, scorer=...)]: the choice
    with the highest score, the first one on ties, together with its
    score; [None] when there is no choice. *)
Definition extractOne (query : pystr) (choices : list pystr) : option (pystr * Q) :=
  fold_left
    (fun best p =>
       let s := token_sort_ratio query p in
       match best with
       | None => Some (p, s)
       | Some (_, b) => if Qgtb s b then Some (p, s) else best
       end)
    choices None.

(** [choice, score, _ = ...]: unpacking [None] raises. *)
Definition unpack (r : option (pystr * Q)) : exn + (option pystr * Q) :=
  match r with
  | Some (c, s) => inr (Some c, s)
  | None => inl TypeError
  end.

(** The manual loop of the [except] branch. *)
Definition fuzzy_fallback (txt : pystr) (patterns : list pystr) : option pystr * Q :=
  fold_left
    (fun best p =>
       let s := token_sort_ratio txt p in
       if Qgtb s (snd best) then (Some p, s) else best)
    patterns (None, 0%Q).

Definition _fuzzy_match (text : pystr) (patterns : list pystr) : option (pystr * Z) :=
  let txt := _normalize_keep_paren text in
  if negb (Py.truthy txt) then None
  else
    let '(choice, score) :=
      match unpack (extractOne txt patterns) with
      | inr r => r
      | inl _ => fuzzy_fallback txt patterns
      end in
    match choice with
    | None => None
    | Some c =>
        if negb (Py.truthy c) then None
        else
          let short := (length (Py.split c) <=? 2)%nat in
          let threshold :=
            if short then SHORT_PHRASE_FUZZY_THRESHOLD else FUZZY_SCORE_THRESHOLD in
          if Qle_bool (inject_Z threshold) score
          then Some (c, int_of_score score)
          else None
    end.

Definition _matches_any (text : pystr) (patterns : list pystr) : option (pystr * pystr) :=
  if negb (Py.truthy text) then None
  else
    match _regex_complexity_detect text with
    | Some reg => Some (fst reg, str "regex_complexity")
    | None =>
        match _contains_any_substring text patterns with
        | Some ((_ :: _) as sub) => Some (sub, str "substr")
        | _ =>
            match _lemma_token_match text patterns with
            | Some ((_ :: _) as lm) => Some (lm, str "lemma")
            | _ =>
                match _fuzzy_match text patterns with
                | Some (pattern, score) =>
                    Some (pattern, str "fuzzy:" ++ Py.str_of_int score)
                | None => None
                end
            end
        end
    end.

(** *** API *)

(** [(matched, matched_pattern, match_method)] *)
Definition MatchResult : Type := bool * option pystr * option pystr.

(** [(bool(m), m[0] if m else None, m[1] if m else None)] *)
Definition match_result (m : option (pystr * pystr)) : MatchResult :=
  match m with
  | Some (pattern, method) => (true, Some pattern, Some method)
  | None => (false, None, None)
  end.

Definition matched (r : MatchResult) : bool := fst (fst r).

Record ScoreResult : Type :=
  { peer_detected : gmap pystr MatchResult;
    teacher_fixed : gmap pystr MatchResult;
    pass : bool }.

(** [d[m]]: a missing key raises. *)
Definition getitem (d : gmap pystr MatchResult) (m : pystr) : exn + MatchResult :=
  match d !! m with
  | Some r => inr r
  | None => inl KeyError
  end.

(** One round of the loop over [expected_mistakes]. *)
Definition score_step (peer_text teacher_text : option pystr)
    (acc : gmap pystr MatchResult * gmap pystr MatchResult) (m : pystr)
    : gmap pystr MatchResult * gmap pystr MatchResult :=
  let peer_patterns := indicators PEER_INDICATORS m in
  let teacher_patterns := indicators TEACHER_INDICATORS m in
  let pm := _matches_any (Py.or_empty peer_text) peer_patterns in
  let tm := _matches_any (Py.or_empty teacher_text) teacher_patterns in
  (<[m := match_result pm]> (fst acc), <[m := match_result tm]> (snd acc)).

(** [all(peer_detected[m][0] and teacher_fixed[m][0] for m in ms)] *)
Fixpoint all_pass (pd tf : gmap pystr MatchResult) (ms : list pystr) : exn + bool :=
  match ms with
  | [] => inr true
  | m :: ms' =>
      match getitem pd m with
      | inl e => inl e
      | inr p =>
          if matched p then
            match getitem tf m with
            | inl e => inl e
            | inr t => if matched t then all_pass pd tf ms' else inr false
            end
          else inr false
      end
  end.

Definition score_pair (peer_text teacher_text : option pystr)
    (expected_mistakes : list pystr) : exn + ScoreResult :=
  let '(pd, tf) :=
    fold_left (score_step peer_text teacher_text) expected_mistakes (∅, ∅) in
  match all_pass pd tf expected_mistakes with
  | inl e => inl e
  | inr overall_pass =>
      inr {| peer_detected := pd; teacher_fixed := tf; pass := overall_pass |}
  end.

End Scorer.

(** ** The session store of [api/session_store.py]

    Session identifiers and the texts of a transcript are only stored,
    compared and copied by the store and by the routes below; they are held
    as Rocq strings, the UTF-8 bytes of the Python [str].  Every method
    runs under the store's lock, so a method is one step on the store. *)

Module SessionStore.

Section Store.

(** The types of [meta] (a dict) and of one transcript item. *)
Variables Meta Turn : Type.

(** [{"meta": meta, "transcript": transcript}] *)
Record entry : Type := { meta : Meta; transcript : option (list Turn) }.

(** [__init__]: the empty [_store]. *)
Definition init : gmap string entry := ∅.

Definition create_session (_store : gmap string entry) (session_id : string) (m : Meta)
    : gmap string entry :=
  <[session_id := {| meta := m; transcript := None |}]> _store.

Definition set_transcript (_store : gmap string entry) (session_id : string)
    (tr : list Turn) : gmap string entry :=
  match _store !! session_id with
  | Some e => <[session_id := {| meta := meta e; transcript := Some tr |}]> _store
  | None => _store
  end.

(** [self._store.get(session_id, {}).get("transcript")] *)
Definition get_transcript (_store : gmap string entry) (session_id : string)
    : option (list Turn) :=
  match _store !! session_id with
  | Some e => transcript e
  | None => None
  end.

(** [exists] *)
Definition exists_ (_store : gmap string entry) (session_id : string) : bool :=
  match _store !! session_id with
  | Some _ => true
  | None => false
  end.

(** A call that changes the store. *)
Inductive call : Type :=
| CreateSession (session_id : string) (m : Meta)
| SetTranscript (session_id : string) (tr : list Turn).

Definition run_call (_store : gmap string entry) (c : call) : gmap string entry :=
  match c with
  | CreateSession sid m => create_session _store sid m
  | SetTranscript sid tr => set_transcript _store sid tr
  end.

(** The call is made on the session [sid]. *)
Definition touches (sid : string) (c : call) : Prop :=
  match c with
  | CreateSession sid' _ => sid' = sid
  | SetTranscript sid' _ => sid' = sid
  end.

End Store.

End SessionStore.

(** ** The session routes of [api/app.py]

    [uuid.uuid4()] and [datetime.datetime.now()] are inputs of a route:
    the fresh identifier [sid] and the time stamp [now]. *)

Module App.

Record TranscriptTurn : Type :=
  { session_id : string;
    turn_id : Z;
    agent : string;
    role : string;
    content : string;
    timestamp : string }.

Record StartSessionRequest : Type :=
  { topic : string;
    difficulty : string;
    question_text : option string;
    simulate : bool }.

(** [SessionResponse(session_id=..., transcript=...)] *)
Record SessionResponse : Type :=
  { response_session_id : string;
    response_transcript : list TranscriptTurn }.

(** [HTTPException(status_code=..., detail=...)] *)
Inductive HTTPException : Type :=
| HTTP (status_code : Z) (detail : string).

(** [x or d] for an optional string. *)
Definition or_default (x : option string) (d : string) : string :=
  match x with
  | Some EmptyString => d
  | Some s => s
  | None => d
  end.

Definition start_session (SESSION_STORE : gmap string (list TranscriptTurn))
    (req : StartSessionRequest) (sid now : string)
    : gmap string (list TranscriptTurn) * SessionResponse :=
  let transcript :=
    if simulate req then
      [ {| session_id := sid; turn_id := 1; agent := "QuestionAgent"; role := "question";
           content := or_default (question_text req)
                        ("Auto question on " ++ topic req)%string;
           timestamp := now |};
        {| session_id := sid; turn_id := 2; agent := "PeerAgent"; role := "peer_attempt";
           content := "Naive solution with wrong complexity claim. (wrong complexity)";
           timestamp := now |};
        {| session_id := sid; turn_id := 3; agent := "Learner"; role := "learner_input";
           content := "I think that’s right, but I’m not sure.";
           timestamp := now |};
        {| session_id := sid; turn_id := 4; agent := "TeacherAgent"; role := "teacher_reply";
           content := "Good start, but complexity is exponential O(2^n), not quadratic.";
           timestamp := now |};
        {| session_id := sid; turn_id := 5; agent := "SummaryAgent"; role := "summary";
           content :=
             String.concat (String "010" EmptyString)
               [ "- **Question**: Write fib"; "- **Peer**: naive attempt";
                 "- **Correction**: complexity fixed"; "- **Next Steps**: implement & test" ]%string;
           timestamp := now |} ]
    else [] in
  (<[sid := transcript]> SESSION_STORE,
   {| response_session_id := sid; response_transcript := transcript |}).

Definition get_session (SESSION_STORE : gmap string (list TranscriptTurn)) (sid : string)
    : HTTPException + SessionResponse :=
  match SESSION_STORE !! sid with
  | None => inl (HTTP 404 "session not found")
  | Some turns => inr {| response_session_id := sid; response_transcript := turns |}
  end.

Definition step_session (SESSION_STORE : gmap string (list TranscriptTurn)) (sid now : string)
    : HTTPException + (gmap string (list TranscriptTurn) * SessionResponse) :=
  match SESSION_STORE !! sid with
  | None => inl (HTTP 404 "session not found")
  | Some turns =>
      let new_turn_id := (Z.of_nat (length turns) + 1)%Z in
      let turns :=
        turns ++ [ {| session_id := sid; turn_id := new_turn_id; agent := "TeacherAgent";
                      role := "teacher_reply";
                      content := "(Simulated) advancing session one step...";
                      timestamp := now |} ] in
      inr (<[sid := turns]> SESSION_STORE,
           {| response_session_id := sid; response_transcript := turns |})
  end.

(** A request to one of the routes. *)
Inductive request : Type :=
| StartSession (req : StartSessionRequest) (sid now : string)
| GetSession (sid : string)
| StepSession (sid now : string).

(** The store after a request; a request answered by an error leaves it
    as it was. *)
Definition after (SESSION_STORE : gmap string (list TranscriptTurn)) (r : request)
    : gmap string (list TranscriptTurn) :=
  match r with
  | StartSession req sid now => fst (start_session SESSION_STORE req sid now)
  | GetSession _ => SESSION_STORE
  | StepSession sid now =>
      match step_session SESSION_STORE sid now with
      | inr (store, _) => store
      | inl _ => SESSION_STORE
      end
  end.

(** The store after a sequence of requests to a freshly started server. *)
Definition serve (rs : list request) : gmap string (list TranscriptTurn) :=
  fold_left after rs ∅.

(** The number of step requests on the session [sid]. *)
Definition steps_on (sid : string) (rs : list request) : nat :=
  length
    (List.filter
       (fun r => match r with
                 | StepSession sid' _ => String.eqb sid' sid
                 | _ => false
                 end) rs).

(** The session [sid] is started by a request of [rs]. *)
Definition started (sid : string) (rs : list request) : Prop :=
  exists req now, In (StartSession req sid now) rs.

(** The turns of a transcript stored under [sid] are numbered 1, 2, ...
    and carry [sid]. *)
Definition well_numbered (sid : string) (turns : list TranscriptTurn) : Prop :=
  map turn_id turns = map Z.of_nat (seq 1 (length turns))
  /\ Forall (fun t => session_id t = sid) turns.

End App.

(** ** The hint and the canned teacher replies of [api/orchestrator.py] *)

Definition _extract_mistake_hint (peer_prompt : option pystr) : option pystr :=
  if negb (Py.truthy (Py.or_empty peer_prompt)) then None
  else
    let txt := Py.lower (Py.or_empty peer_prompt) in
    if Py.contains (str "wrong time complexity") txt || Py.contains (str "complexity") txt
    then Some (str "complexity")
    else if Py.contains (str "off-by-one") txt || Py.contains (str "off by one") txt
    then Some (str "off_by_one")
    else if Py.contains (str "base case") txt || Py.contains (str "missing base") txt
    then Some (str "missing_base_case")
    else if Py.contains (str "edge case") txt
    then Some (str "edge_case")
    else if Py.contains (str "inefficient") txt
    then Some (str "inefficient")
    else None.

Definition _teacher_reply_for (question_text peer_text learner_input : option pystr) : pystr :=
  let q := Py.lower (Py.or_empty question_text) in
  if Py.contains (str "fib") q || Py.contains (str "fibonacci") q
  then str "The peer's approach is correct, but the complexity analysis is a common mistake. Naive recursive Fibonacci is exponential (O(2^n)). Use memoization to optimize it to O(n)."
  else if Py.contains (str "sum_nested") q || Py.contains (str "nested list") q
  then str "The peer's idea to recurse is good, but omitting the base case is a critical error. Handle empty lists as a base case: e.g., `if not lst: return 0`."
  else if Py.contains (str "selection_sort") q || Py.contains (str "selection sort") q
  then str "Selection sort involves nested loops, making it O(n^2), not O(n log n). It's simple but inefficient for large datasets."
  else str "That's a good start from the peer. Let's refine the logic and double-check the complexity.".

(** ** Vocabulary of the statements *)

(** The character before position [length s] of a text [s] that itself
    follows [prev]. *)
Fixpoint last_char (prev : option ascii) (s : pystr) : option ascii :=
  match s with
  | [] => prev
  | c :: s' => last_char (Some c) s'
  end.

(** [lit] stands in [pre ++ lit ++ post] between two non-word positions. *)
Definition delimited (pre post : pystr) : Prop :=
  Re.is_word_opt (last_char None pre) = false /\ Re.is_word_opt (head post) = false.

(** A character that [\w] matches only if the normalizer keeps it: neither
    the underscore nor an alphanumeric character outside ASCII. *)
Definition plain (c : ascii) : Prop :=
  Py.isword c = true -> Py.is_ascii_alnum c = true.

(** What [replace("/", " ")] does to one character. *)
Definition unslash (c : ascii) : ascii :=
  if Py.chr_eqb c "/" then " "%char else c.

(** What the second substitution of the normalizer does to one character. *)
Definition blank (c : ascii) : ascii :=
  if Detectors.kept c then c else " "%char.

Definition is_v (c : ascii) : bool := Py.chr_eqb (Py.lower_char c) "v"%char.
Definition is_s (c : ascii) : bool := Py.chr_eqb (Py.lower_char c) "s"%char.

(** [\bvs\b] matches the two characters [a], [b] that follow [prev] and
    precede [rest]. *)
Definition vs_here (prev : option ascii) (a b : ascii) (rest : pystr) : bool :=
  is_v a && is_s b && negb (Re.is_word_opt prev) && negb (Re.is_word_opt (head rest)).

(** What the first substitution of the normalizer does: every occurrence
    of the word "vs" becomes " vs ". *)
Fixpoint pad (prev : option ascii) (s : pystr) : pystr :=
  match s with
  | [] => []
  | a :: tl =>
      match tl with
      | b :: rest =>
          if vs_here prev a b rest then str " vs " ++ pad (Some b) rest
          else a :: pad (Some a) tl
      | [] => [a]
      end
  end.

(** Condition (1) of the lemma stage: every token of the normalized
    phrase is one of the lemmas of the text. *)
Definition all_tokens_present (tokens : list pystr) (p : pystr) : Prop :=
  forall pt, In pt (Py.split (_normalize_keep_paren p)) -> In pt tokens.

(** Condition (2): the normalized phrase is a contiguous n-gram of the
    lemma sequence, for some n between 1 and min(5, number of lemmas). *)
Definition is_ngram (tokens : list pystr) (p : pystr) : Prop :=
  exists n i,
    (1 <= n <= Nat.min 5 (length tokens))%nat
    /\ (i + n <= length tokens)%nat
    /\ _normalize_keep_paren p = Py.join (str " ") (Py.slice i n tokens).


(** The first character of [s] would continue a token begun before it. *)
Definition glue (s : pystr) : bool :=
  match s with
  | d :: _ => negb (Py.isspace d)
  | [] => false
  end.

(** Two strings that differ only in the amount of whitespace between and
    around their tokens, and start alike. *)
Definition same_tokens (s1 s2 : pystr) : Prop :=
  Py.split s1 = Py.split s2 /\ glue s1 = glue s2.

(** A string without whitespace. *)
Definition spaceless (t : pystr) : Prop := Forall (fun c => Py.isspace c = false) t.

(** The characters of a normalized text: digits, lower-case letters, the
    space and the symbols ^ * ( ) + -. *)
Definition normal_char (c : ascii) : bool :=
  Py.between 48 57 c || Py.between 97 122 c || existsb (Py.chr_eqb c) (str " ^*()+-").

(** All 256 code points of the block. *)
Definition all_chars : list ascii := map ascii_of_nat (seq 0 256).

(** No character test of the pattern tells a character from its
    lower-case form: the pattern is used with [re.I]. *)
Fixpoint case_blind (r : Re.regex) : bool :=
  match r with
  | Re.Eps | Re.Bound => true
  | Re.Chr p | Re.Star p =>
      forallb (fun c => Bool.eqb (p (Py.lower_char c)) (p c)) all_chars
  | Re.Seq r1 r2 | Re.Alt r1 r2 => case_blind r1 && case_blind r2
  | Re.Opt r1 => case_blind r1
  end.

(** The matcher found a match. *)
Definition succeeds (r : option pystr) : bool :=
  match r with
  | Some _ => true
  | None => false
  end.

(** The seven family keys of the detector table. *)
Definition family_keys : list pystr :=
  map str ["quadratic"; "exponential"; "linear"; "nlogn"; "vplusE"; "n_k_logk"; "n_k"].

(** The threshold [_fuzzy_match] applies to a selected phrase. *)
Definition adaptive_threshold (choice : pystr) : Z :=
  if (length (Py.split choice) <=? 2)%nat
  then SHORT_PHRASE_FUZZY_THRESHOLD else FUZZY_SCORE_THRESHOLD.

(** The expected result of a test: the matched flags of one category. *)
Definition flags_of (r : exn + ScoreResult) (m : pystr) : option (bool * bool) :=
  match r with
  | inr s =>
      match peer_detected s !! m, teacher_fixed s !! m with
      | Some p, Some t => Some (matched p, matched t)
      | _, _ => None
      end
  | inl _ => None
  end.

(** ** Concrete collaborators used to exercise the statements *)

(** A similarity that scores every non-empty phrase 85 and the empty one 0. *)
Definition ratio_85 (a b : pystr) : Q :=
  match b with
  | [] => 0
  | _ => 85 # 1
  end.

(** A similarity that scores every pair 0. *)
Definition ratio_0 (a b : pystr) : Q := 0.

(** * Properties *)

(** ** Characters and strings *)

Lemma chr_eqb_eq (a b : ascii) : Py.chr_eqb a b = true <-> a = b.
Proof.
  unfold Py.chr_eqb, Py.code. rewrite N.eqb_eq. split.
  - intros H. rewrite <- (ascii_N_embedding a), <- (ascii_N_embedding b).
    now rewrite H.
  - now intros ->.
Qed.

Lemma str_eqb_eq (a b : pystr) : Py.str_eqb a b = true <-> a = b.
Proof.
  revert b. induction a as [|x a IH]; intros [|y b]; simpl; try easy.
  rewrite andb_true_iff, chr_eqb_eq, IH. split.
  - now intros [-> ->].
  - intros E. now inversion E.
Qed.

Lemma str_eqb_refl (a : pystr) : Py.str_eqb a a = true.
Proof. now apply str_eqb_eq. Qed.

Lemma mem_In (x : pystr) (xs : list pystr) : Py.mem x xs = true <-> In x xs.
Proof.
  unfold Py.mem. rewrite existsb_exists. split.
  - intros (y & Hy & E). apply str_eqb_eq in E. now subst.
  - intros H. exists x. split; [easy | apply str_eqb_refl].
Qed.

(** ** Loops that return the first hit *)

Lemma first_some_None {A B} (f : A -> option B) (xs : list A) :
  Py.first_some f xs = None <-> forall x, In x xs -> f x = None.
Proof.
  induction xs as [|x xs IH]; simpl.
  - split; [intros _ y [] | easy].
  - destruct (f x) eqn:E.
    + split; [easy|]. intros H. specialize (H x (or_introl eq_refl)). congruence.
    + rewrite IH. split.
      * intros H y [<-|Hy]; auto.
      * intros H y Hy. apply H. now right.
Qed.

Lemma first_some_Some {A B} (f : A -> option B) (xs : list A) (y : B) :
  Py.first_some f xs = Some y <->
  exists l1 x l2, xs = l1 ++ x :: l2 /\ f x = Some y /\ forall z, In z l1 -> f z = None.
Proof.
  induction xs as [|x xs IH]; simpl.
  - split; [easy|]. intros (l1 & x & l2 & E & _). now destruct l1.
  - destruct (f x) eqn:E.
    + split.
      * intros [= <-]. exists [], x, xs. repeat split; [easy | intros z []].
      * intros ([|a l1] & x' & l2 & Exs & Hx & Hl1); simpl in Exs; inversion Exs; subst.
        -- congruence.
        -- specialize (Hl1 a (or_introl eq_refl)). congruence.
    + rewrite IH. split.
      * intros (l1 & x' & l2 & -> & Hx & Hl1).
        exists (x :: l1), x', l2. repeat split; [easy|].
        intros z [<-|Hz]; auto.
      * intros ([|a l1] & x' & l2 & Exs & Hx & Hl1); simpl in Exs; inversion Exs; subst.
        -- congruence.
        -- exists l1, x', l2. repeat split; [easy|]. intros z Hz. apply Hl1. now right.
Qed.

(** ** The pair scorer *)

Section PairScorer.

Variable nlp : option (pystr -> list Token).
Variable token_sort_ratio : pystr -> pystr -> Q.

Let step := score_step nlp token_sort_ratio.

(** What the loop of [score_pair] stores under a category. *)
Let peer_entry (peer : option pystr) (m : pystr) : MatchResult :=
  match_result
    (_matches_any nlp token_sort_ratio (Py.or_empty peer) (indicators PEER_INDICATORS m)).

Let teacher_entry (teacher : option pystr) (m : pystr) : MatchResult :=
  match_result
    (_matches_any nlp token_sort_ratio (Py.or_empty teacher)
       (indicators TEACHER_INDICATORS m)).

Lemma score_loop_lookup (peer teacher : option pystr) (ms : list pystr)
    (acc : gmap pystr MatchResult * gmap pystr MatchResult) (m : pystr) :
  let r := fold_left (step peer teacher) ms acc in
  (In m ms ->
     fst r !! m = Some (peer_entry peer m) /\ snd r !! m = Some (teacher_entry teacher m))
  /\ (~ In m ms -> fst r !! m = fst acc !! m /\ snd r !! m = snd acc !! m).
Proof.
  revert acc. induction ms as [|x ms IH]; intros acc; simpl.
  - split; [intros [] | easy].
  - destruct (IH (step peer teacher acc x)) as [IHin IHout].
    destruct (decide (m ∈ ms)) as [Hin|Hout]; rewrite list_elem_of_In in *.
    + split; [intros _; now apply IHin | intros H; exfalso; apply H; now right].
    + split.
      * intros [->|Hin]; [|easy].
        destruct (IHout Hout) as [-> ->].
        unfold step, score_step; simpl. now rewrite !lookup_insert_eq.
      * intros H. destruct (IHout Hout) as [-> ->].
        unfold step, score_step; simpl.
        assert (x <> m) by (intros ->; apply H; now left).
        now rewrite !lookup_insert_ne.
Qed.

Lemma all_pass_spec (pd tf : gmap pystr MatchResult) (ms : list pystr) :
  (forall m, In m ms -> is_Some (pd !! m) /\ is_Some (tf !! m)) ->
  exists b, all_pass pd tf ms = inr b
    /\ (b = true <->
        forall m, In m ms ->
          exists p t, pd !! m = Some p /\ tf !! m = Some t
                      /\ matched p = true /\ matched t = true).
Proof.
  induction ms as [|m ms IH]; intros Hdom; simpl.
  - exists true. split; [easy|]. split; [intros _ m [] | easy].
  - destruct (Hdom m (or_introl eq_refl)) as [[p Hp] [t Ht]].
    destruct IH as (b & Hb & Hiff); [intros m' Hm'; apply Hdom; now right|].
    unfold getitem. rewrite Hp, Ht.
    destruct (matched p) eqn:Ep; [destruct (matched t) eqn:Et|].
    + exists b. split; [easy|]. rewrite Hiff. split.
      * intros H m' [<-|Hm']; [now exists p, t | now apply H].
      * intros H m' Hm'. apply H. now right.
    + exists false. split; [easy|]. split; [easy|].
      intros H. destruct (H m (or_introl eq_refl)) as (p' & t' & ? & ? & ? & ?).
      congruence.
    + exists false. split; [easy|]. split; [easy|].
      intros H. destruct (H m (or_introl eq_refl)) as (p' & t' & ? & ? & ? & ?).
      congruence.
Qed.

(** The value [score_pair] returns: it never raises, both mappings hold the
    entry of every listed category, and [pass] is the conjunction. *)
Lemma score_pair_returns (peer teacher : option pystr) (ms : list pystr) :
  exists r, score_pair nlp token_sort_ratio peer teacher ms = inr r
    /\ (forall m, In m ms ->
          peer_detected r !! m = Some (peer_entry peer m)
          /\ teacher_fixed r !! m = Some (teacher_entry teacher m))
    /\ (forall m, ~ In m ms ->
          peer_detected r !! m = None /\ teacher_fixed r !! m = None)
    /\ (pass r = true <->
        forall m, In m ms ->
          matched (peer_entry peer m) = true /\ matched (teacher_entry teacher m) = true).
Proof.
  unfold score_pair.
  pose proof (score_loop_lookup peer teacher ms (∅, ∅)) as L. simpl in L.
  fold step. destruct (fold_left (step peer teacher) ms (∅, ∅)) as [pd tf] eqn:E.
  simpl in L.
  destruct (all_pass_spec pd tf ms) as (b & Hb & Hiff).
  { intros m Hm. destruct (proj1 (L m) Hm) as [-> ->]. split; eexists; reflexivity. }
  rewrite Hb. eexists. split; [reflexivity|]. simpl. split; [|split].
  - intros m Hm. now apply L.
  - intros m Hm. destruct (proj2 (L m) Hm) as [-> ->]. now rewrite !lookup_empty.
  - rewrite Hiff. split.
    + intros H m Hm. destruct (H m Hm) as (p & t & Hp & Ht & ? & ?).
      destruct (proj1 (L m) Hm) as [Lp Lt]. rewrite Lp in Hp. rewrite Lt in Ht.
      inversion Hp; inversion Ht; subst. easy.
    + intros H m Hm. destruct (proj1 (L m) Hm) as [Lp Lt].
      eexists _, _. split; [exact Lp|]. split; [exact Lt|]. now apply H.
Qed.

(** C1. For every peer text, teacher text and list of expected categories
    (the non-empty ones in particular), [score_pair] returns a result in
    which every category of the list has an entry on both sides: under
    [peer_detected] what the category pipeline finds in the peer text with
    the peer phrases of the category, under [teacher_fixed] what it finds
    in the teacher text with the teacher phrases.  The [pass] flag of that
    result is true if and only if, for every category of the list, the
    matched flag stored under it in [peer_detected] and the matched flag
    stored under it in [teacher_fixed] are both true. *)
Theorem score_pair_pass_iff_all_matched (peer teacher : option pystr) (ms : list pystr) :
  exists r, score_pair nlp token_sort_ratio peer teacher ms = inr r
    /\ (forall m, In m ms ->
          peer_detected r !! m = Some (peer_entry peer m)
          /\ teacher_fixed r !! m = Some (teacher_entry teacher m))
    /\ (pass r = true <->
        forall m, In m ms ->
          exists p t, peer_detected r !! m = Some p /\ teacher_fixed r !! m = Some t
                      /\ matched p = true /\ matched t = true).
Proof.
  destruct (score_pair_returns peer teacher ms) as (r & Hr & Hin & _ & Hpass).
  exists r. split; [exact Hr|]. split; [exact Hin|]. rewrite Hpass. split.
  - intros H m Hm. destruct (Hin m Hm) as [Hp Ht]. destruct (H m Hm) as [? ?].
    eexists _, _. eauto.
  - intros H m Hm. destruct (Hin m Hm) as [Hp Ht].
    destruct (H m Hm) as (p & t & Hp' & Ht' & ? & ?).
    rewrite Hp in Hp'. rewrite Ht in Ht'. inversion Hp'; inversion Ht'; subst. easy.
Qed.

(** C10. With an empty list of expected categories, [score_pair] returns
    empty [peer_detected] and [teacher_fixed] mappings and [pass = True],
    whatever the two texts are. *)
Theorem score_pair_no_categories (peer teacher : option pystr) :
  score_pair nlp token_sort_ratio peer teacher []
  = inr {| peer_detected := ∅; teacher_fixed := ∅; pass := true |}.
Proof. reflexivity. Qed.

End PairScorer.

(** ** The category pipeline *)

Lemma detect_empty : _regex_complexity_detect [] = None.
Proof. reflexivity. Qed.

Lemma detect_tag (text k tag : pystr) :
  _regex_complexity_detect text = Some (k, tag) -> tag = str "regex".
Proof.
  unfold _regex_complexity_detect. intros H.
  apply first_some_Some in H. destruct H as (_ & kr & _ & _ & H & _).
  destruct (Re.search (snd kr) text); [|easy]. now inversion H.
Qed.

Lemma detect_hit (text : pystr) :
  (exists kr, In kr COMPLEXITY_REGEX /\ Re.search (snd kr) text = true) ->
  exists k, _regex_complexity_detect text = Some (k, str "regex").
Proof.
  intros (kr & Hin & Hs).
  destruct (_regex_complexity_detect text) as [[k tag]|] eqn:E.
  - exists k. now rewrite (detect_tag _ _ _ E).
  - unfold _regex_complexity_detect in E.
    rewrite first_some_None in E. specialize (E kr Hin). simpl in E.
    now rewrite Hs in E.
Qed.

(** The detector returns the key of the first entry of the table, in
    table order, whose regex matches somewhere in the text. *)
Lemma detect_spec (text k : pystr) :
  _regex_complexity_detect text = Some (k, str "regex") <->
  exists l1 rx l2,
    COMPLEXITY_REGEX = l1 ++ (k, rx) :: l2
    /\ Re.search rx text = true
    /\ forall kr, In kr l1 -> Re.search (snd kr) text = false.
Proof.
  unfold _regex_complexity_detect. rewrite first_some_Some. split.
  - intros (l1 & [k' rx] & l2 & E & H & Hl1). simpl in H.
    destruct (Re.search rx text) eqn:Es; [|easy]. inversion H; subst k'.
    exists l1, rx, l2. repeat split; [easy..|].
    intros kr Hkr. specialize (Hl1 kr Hkr). now destruct (Re.search (snd kr) text).
  - intros (l1 & rx & l2 & E & H & Hl1). exists l1, (k, rx), l2. repeat split; [easy| |].
    + simpl. now rewrite H.
    + intros kr Hkr. now rewrite (Hl1 kr Hkr).
Qed.

Lemma normalize_empty : _normalize_keep_paren [] = [].
Proof. reflexivity. Qed.

Section Pipeline.

Variable nlp : option (pystr -> list Token).
Variable token_sort_ratio : pystr -> pystr -> Q.

Lemma lemma_token_match_nil (text : pystr) :
  _lemma_token_match nlp text [] = None.
Proof.
  unfold _lemma_token_match. destruct (_lemmatize_tokens nlp text); [easy|].
  cbv zeta. cbn [Py.first_some].
  apply first_some_None. intros n _. apply first_some_None. now intros i _.
Qed.

Lemma fuzzy_match_nil (text : pystr) :
  _fuzzy_match token_sort_ratio text [] = None.
Proof.
  unfold _fuzzy_match. now destruct (Py.truthy (_normalize_keep_paren text)).
Qed.

(** With no phrase to look for, only the regex detectors can produce a match. *)
Lemma matches_any_nil (text : pystr) :
  _matches_any nlp token_sort_ratio text []
  = match _regex_complexity_detect text with
    | Some (k, _) => Some (k, str "regex_complexity")
    | None => None
    end.
Proof.
  unfold _matches_any. destruct text as [|c text]; [reflexivity|]. simpl negb. cbv iota.
  destruct (_regex_complexity_detect (c :: text)) as [[k tag]|]; [reflexivity|].
  unfold _contains_any_substring. simpl Py.first_some.
  now rewrite lemma_token_match_nil, fuzzy_match_nil.
Qed.

Lemma matches_any_empty (patterns : list pystr) :
  _matches_any nlp token_sort_ratio [] patterns = None.
Proof. reflexivity. Qed.

(** C2. For every text and every phrase list (the empty list and the lists
    of categories unrelated to complexity included), if the raw text
    matches one of the complexity regexes, then the detector returns the
    detected family key, which is the key of the first entry of
    [COMPLEXITY_REGEX], in table order, whose regex matches the text; and
    the category pipeline returns matched = True, that key as matched
    pattern and [regex_complexity] as method.  The phrase list plays no
    part. *)
Theorem regex_hit_short_circuits (text : pystr) (patterns : list pystr) :
  (exists kr, In kr COMPLEXITY_REGEX /\ Re.search (snd kr) text = true) ->
  exists l1 k rx l2,
    COMPLEXITY_REGEX = l1 ++ (k, rx) :: l2
    /\ Re.search rx text = true
    /\ (forall kr, In kr l1 -> Re.search (snd kr) text = false)
    /\ _regex_complexity_detect text = Some (k, str "regex")
    /\ match_result (_matches_any nlp token_sort_ratio text patterns)
       = (true, Some k, Some (str "regex_complexity")).
Proof.
  intros H. destruct (detect_hit text H) as (k & Hk).
  destruct (proj1 (detect_spec text k) Hk) as (l1 & rx & l2 & E & Hs & Hl1).
  exists l1, k, rx, l2. do 4 (split; [assumption|]).
  unfold _matches_any. destruct text as [|c text]; [now rewrite detect_empty in Hk|].
  simpl negb. cbv iota. now rewrite Hk.
Qed.

(** C9. [score_pair] returns a result, raising nothing, for every pair of
    possibly missing texts and every list of category names, known or not.
    When both texts are empty or missing, every listed category has the
    entry (False, None, None) on both sides and [pass] is False as soon as
    a category is listed.  A listed category that neither table knows gets
    on each side the entry of the regex detector alone: a match by
    [regex_complexity] when a complexity regex matches the text, and
    (False, None, None) otherwise. *)
Theorem score_pair_tolerates_malformed_input :
  (forall peer teacher ms, exists r, score_pair nlp token_sort_ratio peer teacher ms = inr r)
  /\ (forall peer teacher ms,
        Py.or_empty peer = [] -> Py.or_empty teacher = [] ->
        exists r, score_pair nlp token_sort_ratio peer teacher ms = inr r
          /\ (forall m, In m ms ->
                peer_detected r !! m = Some (false, None, None)
                /\ teacher_fixed r !! m = Some (false, None, None))
          /\ (ms <> [] -> pass r = false))
  /\ (forall peer teacher ms m,
        In m ms -> PEER_INDICATORS !! m = None -> TEACHER_INDICATORS !! m = None ->
        exists r, score_pair nlp token_sort_ratio peer teacher ms = inr r
          /\ peer_detected r !! m
             = Some (match _regex_complexity_detect (Py.or_empty peer) with
                     | Some (k, _) => (true, Some k, Some (str "regex_complexity"))
                     | None => (false, None, None)
                     end)
          /\ teacher_fixed r !! m
             = Some (match _regex_complexity_detect (Py.or_empty teacher) with
                     | Some (k, _) => (true, Some k, Some (str "regex_complexity"))
                     | None => (false, None, None)
                     end)).
Proof.
  split; [|split].
  - intros peer teacher ms.
    destruct (score_pair_returns nlp token_sort_ratio peer teacher ms) as (r & Hr & _).
    now exists r.
  - intros peer teacher ms Hp Ht.
    destruct (score_pair_returns nlp token_sort_ratio peer teacher ms)
      as (r & Hr & Hin & _ & Hpass).
    exists r. split; [exact Hr|]. rewrite Hp, Ht in *. split.
    + intros m Hm. destruct (Hin m Hm) as [H1 H2].
      rewrite matches_any_empty in H1, H2. split; assumption.
    + intros Hne. destruct ms as [|m ms]; [easy|].
      destruct (pass r); [|easy].
      destruct (proj1 Hpass eq_refl m (or_introl eq_refl)) as [H _].
      now rewrite matches_any_empty in H.
  - intros peer teacher ms m Hm Hpi Hti.
    destruct (score_pair_returns nlp token_sort_ratio peer teacher ms) as (r & Hr & Hin & _).
    exists r. split; [exact Hr|]. destruct (Hin m Hm) as [H1 H2].
    unfold indicators in H1, H2. rewrite Hpi in H1. rewrite Hti in H2.
    simpl default in H1, H2. rewrite matches_any_nil in H1, H2.
    split.
    + destruct (_regex_complexity_detect (Py.or_empty peer)) as [[? ?]|]; exact H1.
    + destruct (_regex_complexity_detect (Py.or_empty teacher)) as [[? ?]|]; exact H2.
Qed.

End Pipeline.

(** C2 on the text "O(n^2)" with an empty phrase list: the family is
    quadratic, the first entry of the table. *)
Lemma regex_hit_short_circuits_witness :
  _regex_complexity_detect (str "O(n^2)") = Some (str "quadratic", str "regex")
  /\ match_result (_matches_any None ratio_0 (str "O(n^2)") [])
     = (true, Some (str "quadratic"), Some (str "regex_complexity")).
Proof.
  destruct (regex_hit_short_circuits None ratio_0 (str "O(n^2)") [])
    as (l1 & k & rx & l2 & _ & _ & _ & Hd & Hm).
  - exists (str "quadratic", Detectors.quadratic). split.
    + left. reflexivity.
    + vm_compute. reflexivity.
  - assert (k = str "quadratic") as Hk.
    { vm_compute in Hd. now inversion Hd. }
    rewrite Hk in Hd, Hm. split; [exact Hd | exact Hm].
Defined.

(** ** The substring stage *)

Lemma startswith_nil_r (p : pystr) : Py.startswith p [] = true -> p = [].
Proof. now destruct p. Qed.

Lemma contains_nil_r (p : pystr) : Py.contains p [] = true -> p = [].
Proof.
  simpl. rewrite orb_false_r. apply startswith_nil_r.
Qed.

(** What the substring stage computes: the first phrase of the list that
    occurs, as it is written, in the normalized text. *)
Lemma contains_any_substring_spec (text : pystr) (patterns : list pystr) (q : pystr) :
  _contains_any_substring text patterns = Some q <->
  exists l1 l2, patterns = l1 ++ q :: l2
    /\ Py.contains q (_normalize_keep_paren text) = true
    /\ forall z, In z l1 -> Py.contains z (_normalize_keep_paren text) = false.
Proof.
  unfold _contains_any_substring. rewrite first_some_Some. split.
  - intros (l1 & x & l2 & -> & Hx & Hl1).
    destruct (Py.contains x _) eqn:E; [|easy]. inversion Hx; subst.
    exists l1, l2. repeat split; [easy|].
    intros z Hz. specialize (Hl1 z Hz). now destruct (Py.contains z _).
  - intros (l1 & l2 & -> & Hq & Hl1). exists l1, q, l2. repeat split.
    + now rewrite Hq.
    + intros z Hz. now rewrite (Hl1 z Hz).
Qed.

Lemma contains_any_substring_None (text : pystr) (patterns : list pystr) :
  _contains_any_substring text patterns = None <->
  forall z, In z patterns -> Py.contains z (_normalize_keep_paren text) = false.
Proof.
  unfold _contains_any_substring. rewrite first_some_None.
  split; intros H z Hz; specialize (H z Hz); now destruct (Py.contains z _).
Qed.

(** C5, observed on the code. The phrase "odd/even" normalizes to
    "odd even", which occurs in the normalized text "odd even", and yet the
    substring stage reports no match: it looks for the phrase as written. *)
Theorem substring_stage_misses_normalized_phrase :
  _normalize_keep_paren (str "odd/even") = str "odd even"
  /\ Py.contains (_normalize_keep_paren (str "odd/even"))
       (_normalize_keep_paren (str "odd even")) = true
  /\ _contains_any_substring (str "odd even") [str "odd/even"] = None.
Proof. repeat split; vm_compute; reflexivity. Qed.

Section SubstringFirst.

Variable nlp : option (pystr -> list Token).
Variable token_sort_ratio : pystr -> pystr -> Q.

(** C3, amended. For every text that no complexity regex matches and every
    phrase list without an empty phrase, if some phrase of the list occurs,
    as it is written, in the normalized text, then the category pipeline
    reports the method [substr], with the first such phrase of the list as
    matched pattern; so the method is neither [lemma] nor [fuzzy:<score>]. *)
Theorem verbatim_phrase_reports_substr (text : pystr) (patterns : list pystr) (p : pystr) :
  _regex_complexity_detect text = None ->
  ~ In [] patterns ->
  In p patterns ->
  Py.contains p (_normalize_keep_paren text) = true ->
  exists q l1 l2,
    patterns = l1 ++ q :: l2
    /\ Py.contains q (_normalize_keep_paren text) = true
    /\ (forall z, In z l1 -> Py.contains z (_normalize_keep_paren text) = false)
    /\ _matches_any nlp token_sort_ratio text patterns = Some (q, str "substr").
Proof.
  intros Hreg Hne Hin Hp.
  destruct (_contains_any_substring text patterns) as [q|] eqn:E.
  - pose proof E as E'. apply contains_any_substring_spec in E'.
    destruct E' as (l1 & l2 & Hpat & Hq & Hl1).
    exists q, l1, l2. repeat split; try assumption.
    unfold _matches_any. destruct text as [|c text].
    + rewrite normalize_empty in Hp. apply contains_nil_r in Hp. now subst.
    + simpl negb. cbv iota. rewrite Hreg, E.
      destruct q; [|reflexivity].
      exfalso. apply Hne. rewrite Hpat. apply in_or_app. right. now left.
  - rewrite contains_any_substring_None in E. rewrite (E p Hin) in Hp. easy.
Qed.

End SubstringFirst.

(** C3, amended, on the text "odd even" and the one-phrase list "odd even". *)
Lemma verbatim_phrase_reports_substr_witness :
  exists q l1 l2,
    [str "odd even"] = l1 ++ q :: l2
    /\ Py.contains q (_normalize_keep_paren (str "odd even")) = true
    /\ (forall z, In z l1 -> Py.contains z (_normalize_keep_paren (str "odd even")) = false)
    /\ _matches_any None ratio_0 (str "odd even") [str "odd even"] = Some (q, str "substr").
Proof.
  apply (verbatim_phrase_reports_substr None ratio_0 (str "odd even") [str "odd even"]
           (str "odd even")).
  - vm_compute. reflexivity.
  - intros [H|[]]. discriminate H.
  - left. reflexivity.
  - vm_compute. reflexivity.
Defined.

(** C3 as stated fails: the phrase "o(n^2)" is present verbatim in the
    normalized text of "O(n^2)", and the method reported is
    [regex_complexity], not [substr]. *)
Lemma verbatim_phrase_counterexample :
  Py.contains (_normalize_keep_paren (str "o(n^2)")) (_normalize_keep_paren (str "O(n^2)"))
  = true
  /\ _matches_any None ratio_0 (str "O(n^2)") [str "o(n^2)"]
     = Some (str "quadratic", str "regex_complexity").
Proof. split; vm_compute; reflexivity. Qed.

(** The same claim also fails past the regex stage: the phrase "odd/even"
    is present in normalized form in "odd even", and the method is [lemma]. *)
Lemma normalized_phrase_reports_lemma :
  _matches_any None ratio_0 (str "odd even") [str "odd/even"]
  = Some (str "odd/even", str "lemma").
Proof. vm_compute. reflexivity. Qed.

(** ** The complexity detector *)

Lemma search_from_app (r : Re.regex) (pre s : pystr) (prev : option ascii) :
  Re.match_at r (last_char prev pre) s <> None ->
  Re.search_from r prev (pre ++ s) = true.
Proof.
  revert prev. induction pre as [|c pre IH]; intros prev H; simpl in *.
  - destruct s; simpl; destruct (Re.match_at r prev _); easy.
  - destruct (Re.match_at r prev (c :: pre ++ s)); [easy|]. now apply IH.
Qed.

Lemma last_char_app (prev : option ascii) (a b : pystr) :
  last_char prev (a ++ b) = last_char (last_char prev a) b.
Proof. revert prev. induction a; intros; simpl; auto. Qed.

Lemma search_inside (r : Re.regex) (pre mid s : pystr) :
  Re.match_at r (last_char None (pre ++ mid)) s <> None ->
  Re.search r (pre ++ mid ++ s) = true.
Proof.
  intros H. unfold Re.search. rewrite app_assoc. now apply search_from_app.
Qed.

(** The matcher looks at the character before the match only to decide
    whether it is a word character. *)
Lemma rmatch_prev_word (r : Re.regex) :
  forall (p p' : option ascii) (s : pystr) (k k' : option ascii -> pystr -> option pystr),
    Re.is_word_opt p = Re.is_word_opt p' ->
    (forall q q' s', Re.is_word_opt q = Re.is_word_opt q' -> k q s' = k' q' s') ->
    Re.rmatch r p s k = Re.rmatch r p' s k'.
Proof.
  induction r as [|f| |r1 IH1 r2 IH2|r1 IH1 r2 IH2|r1 IH1|f]; intros p p' s k k' Hp Hk; simpl.
  - now apply Hk.
  - destruct s as [|c s]; [easy|]. destruct (f c); [now apply Hk | easy].
  - unfold Re.at_boundary. rewrite Hp. destruct (xorb _ _); [now apply Hk | easy].
  - apply IH1; [easy|]. intros q q' s' Hq. now apply IH2.
  - now rewrite (IH1 p p' s k k'), (IH2 p p' s k k').
  - now rewrite (IH1 p p' s k k'), (Hk p p' s).
  - revert p p' Hp. induction s as [|c s IHs]; intros p p' Hp; [now apply Hk|].
    destruct (f c); [|now apply Hk].
    now rewrite (IHs (Some c) (Some c)), (Hk p p' (c :: s)).
Qed.

Lemma match_at_prev_nonword (r : Re.regex) (p : option ascii) (s : pystr) :
  Re.is_word_opt p = false -> Re.match_at r p s = Re.match_at r None s.
Proof.
  intros H. unfold Re.match_at. apply rmatch_prev_word; [exact H | easy].
Qed.

Lemma search_delimited (r : Re.regex) (pre s : pystr) :
  Re.is_word_opt (last_char None pre) = false ->
  Re.match_at r None s <> None ->
  Re.search r (pre ++ s) = true.
Proof.
  intros Hpre H. apply search_from_app. now rewrite match_at_prev_nonword.
Qed.

Lemma detect_None (text : pystr) :
  _regex_complexity_detect text = None <->
  forall kr, In kr COMPLEXITY_REGEX -> Re.search (snd kr) text = false.
Proof.
  unfold _regex_complexity_detect. rewrite first_some_None.
  split; intros H kr Hkr; specialize (H kr Hkr); now destruct (Re.search (snd kr) text).
Qed.

Lemma detect_quadratic (text : pystr) :
  Re.search Detectors.quadratic text = true ->
  _regex_complexity_detect text = Some (str "quadratic", str "regex").
Proof.
  intros H. unfold _regex_complexity_detect, COMPLEXITY_REGEX.
  cbn [Py.first_some fst snd]. now rewrite H.
Qed.

(** Evaluates the matcher on a literal followed by an unknown rest whose
    first character is known not to be a word character. *)
Ltac match_literal H :=
  cbn [Re.is_word_opt head] in H;
  cbv -[Py.isword]; rewrite ?H; vm_compute; discriminate.

Lemma quadratic_n_times_n (post : pystr) :
  Re.is_word_opt (head post) = false ->
  Re.match_at Detectors.quadratic None (str "n*n" ++ post) <> None.
Proof. destruct post as [|c post]; intros H; [vm_compute; discriminate | match_literal H]. Qed.

Lemma linear_O_n (post : pystr) :
  Re.match_at Detectors.linear None (str "O(n)" ++ post) <> None.
Proof.
  destruct post as [|c post]; [vm_compute; discriminate|].
  destruct (Py.isword c) eqn:H; match_literal H.
Qed.

Lemma nlogn_n_log_n (post : pystr) :
  Re.is_word_opt (head post) = false ->
  Re.match_at Detectors.nlogn None (str "n log n" ++ post) <> None.
Proof. destruct post as [|c post]; intros H; [vm_compute; discriminate | match_literal H]. Qed.

Lemma n_k_logk_literal (post : pystr) :
  Re.is_word_opt (head post) = false ->
  Re.match_at Detectors.n_k_logk None (str "n*k*log k" ++ post) <> None.
Proof. destruct post as [|c post]; intros H; [vm_compute; discriminate | match_literal H]. Qed.

Lemma n_k_literal (post : pystr) :
  Re.is_word_opt (head post) = false ->
  Re.match_at Detectors.n_k None (str "n*k" ++ post) <> None.
Proof. destruct post as [|c post]; intros H; [vm_compute; discriminate | match_literal H]. Qed.

(** C4, amended. The detector returns the first family, in the fixed
    order quadratic, exponential, linear, nlogn, vplusE, n_k_logk, n_k,
    whose pattern matches somewhere in the raw text, and nothing when no
    pattern matches.  Whatever surrounds them, "O(n^2)" and "O(n*n)" make
    a text detected as quadratic, and "O(2^n)" and "O(V+E)" make the
    exponential, respectively vplusE, pattern match.  Standing between
    non-word characters, "n*n" makes a text detected as quadratic and
    "n log n", "n*k*log k" and "n*k" make the pattern of their family
    match; so does "O(n)" after a non-word character.  A text whose
    family pattern matches is detected as that family exactly when no
    pattern of an earlier family matches it. *)
Theorem detector_returns_first_matching_family :
  map fst COMPLEXITY_REGEX
  = map str ["quadratic"; "exponential"; "linear"; "nlogn"; "vplusE"; "n_k_logk"; "n_k"]
  /\ (forall text k,
        _regex_complexity_detect text = Some (k, str "regex") <->
        exists l1 rx l2,
          COMPLEXITY_REGEX = l1 ++ (k, rx) :: l2
          /\ Re.search rx text = true
          /\ forall kr, In kr l1 -> Re.search (snd kr) text = false)
  /\ (forall text,
        _regex_complexity_detect text = None <->
        forall kr, In kr COMPLEXITY_REGEX -> Re.search (snd kr) text = false)
  /\ (forall pre post,
        _regex_complexity_detect (pre ++ str "O(n^2)" ++ post)
        = Some (str "quadratic", str "regex"))
  /\ (forall pre post,
        _regex_complexity_detect (pre ++ str "O(n*n)" ++ post)
        = Some (str "quadratic", str "regex"))
  /\ (forall pre post,
        delimited pre post ->
        _regex_complexity_detect (pre ++ str "n*n" ++ post)
        = Some (str "quadratic", str "regex"))
  /\ (forall pre post,
        Re.search Detectors.exponential (pre ++ str "O(2^n)" ++ post) = true)
  /\ (forall pre post,
        Re.is_word_opt (last_char None pre) = false ->
        Re.search Detectors.linear (pre ++ str "O(n)" ++ post) = true)
  /\ (forall pre post,
        delimited pre post ->
        Re.search Detectors.nlogn (pre ++ str "n log n" ++ post) = true)
  /\ (forall pre post,
        Re.search Detectors.vplusE (pre ++ str "O(V+E)" ++ post) = true)
  /\ (forall pre post,
        delimited pre post ->
        Re.search Detectors.n_k_logk (pre ++ str "n*k*log k" ++ post) = true)
  /\ (forall pre post,
        delimited pre post ->
        Re.search Detectors.n_k (pre ++ str "n*k" ++ post) = true).
Proof.
  split; [reflexivity|].
  split; [exact detect_spec|].
  split; [exact detect_None|].
  split.
  { intros pre post. apply detect_quadratic.
    change (str "O(n^2)" ++ post) with (str "O(" ++ str "n^2)" ++ post).
    apply search_inside. rewrite last_char_app. vm_compute. discriminate. }
  split.
  { intros pre post. apply detect_quadratic.
    change (str "O(n*n)" ++ post) with (str "O(" ++ str "n*n)" ++ post).
    apply search_inside. rewrite last_char_app. vm_compute. discriminate. }
  split.
  { intros pre post [Hpre Hpost]. apply detect_quadratic.
    apply search_delimited; [exact Hpre | now apply quadratic_n_times_n]. }
  split.
  { intros pre post.
    change (str "O(2^n)" ++ post) with (str "O(" ++ str "2^n)" ++ post).
    apply search_inside. rewrite last_char_app. vm_compute. discriminate. }
  split.
  { intros pre post Hpre. apply search_delimited; [exact Hpre | apply linear_O_n]. }
  split.
  { intros pre post [Hpre Hpost].
    apply search_delimited; [exact Hpre | now apply nlogn_n_log_n]. }
  split.
  { intros pre post.
    change (str "O(V+E)" ++ post) with (str "O(" ++ str "V+E)" ++ post).
    apply search_inside. rewrite last_char_app. vm_compute. discriminate. }
  split.
  { intros pre post [Hpre Hpost].
    apply search_delimited; [exact Hpre | now apply n_k_logk_literal]. }
  intros pre post [Hpre Hpost].
  apply search_delimited; [exact Hpre | now apply n_k_literal].
Qed.

(** C4 as stated fails: this text contains the literal "O(V+E)" of the
    graph-linear family and is detected as quadratic, the earlier family
    that its "O(n*n)" matches. *)
Lemma detector_family_counterexample :
  str "BFS runs in O(V+E), not O(n*n)."
  = str "BFS runs in " ++ str "O(V+E)" ++ str ", not O(n*n)."
  /\ _regex_complexity_detect (str "BFS runs in O(V+E), not O(n*n).")
     = Some (str "quadratic", str "regex").
Proof. split; vm_compute; reflexivity. Qed.

(** The literal "O(n log n)" on its own is reported as linear: the linear
    pattern accepts its prefix "O(n" and is tried before nlogn. *)
Lemma detector_O_n_log_n_is_linear :
  Re.search Detectors.nlogn (str "O(n log n)") = true
  /\ _regex_complexity_detect (str "O(n log n)") = Some (str "linear", str "regex").
Proof. split; vm_compute; reflexivity. Qed.

(** ** The fuzzy stage *)

Lemma Qgtb_true (a b : Q) : Qgtb a b = true <-> (b < a)%Q.
Proof.
  unfold Qgtb. rewrite negb_true_iff. split.
  - intros H. apply Qnot_le_lt. intros Hle. apply Qle_bool_iff in Hle. congruence.
  - intros H. destruct (Qle_bool a b) eqn:E; [|easy].
    apply Qle_bool_iff in E. exfalso. exact (Qlt_not_le _ _ H E).
Qed.

Lemma Qgtb_false (a b : Q) : Qgtb a b = false <-> (a <= b)%Q.
Proof.
  unfold Qgtb. rewrite negb_false_iff. apply Qle_bool_iff.
Qed.

Section Fuzzy.

Variable token_sort_ratio : pystr -> pystr -> Q.

(** rapidfuzz scores an empty choice 0 against a non-empty query. *)
Hypothesis ratio_empty_choice :
  forall query, query <> [] -> (token_sort_ratio query [] == 0)%Q.

Let pick (query : pystr) (best : option (pystr * Q)) (p : pystr) : option (pystr * Q) :=
  let s := token_sort_ratio query p in
  match best with
  | None => Some (p, s)
  | Some (_, b) => if Qgtb s b then Some (p, s) else best
  end.

Lemma extractOne_from (query : pystr) (ps done1 done2 : list pystr) (c : pystr) :
  (forall z, In z done1 -> (token_sort_ratio query z < token_sort_ratio query c)%Q) ->
  (forall z, In z done2 -> (token_sort_ratio query z <= token_sort_ratio query c)%Q) ->
  exists c' l1 l2,
    fold_left (pick query) ps (Some (c, token_sort_ratio query c))
    = Some (c', token_sort_ratio query c')
    /\ done1 ++ c :: done2 ++ ps = l1 ++ c' :: l2
    /\ (forall z, In z l1 -> (token_sort_ratio query z < token_sort_ratio query c')%Q)
    /\ (forall z, In z l2 -> (token_sort_ratio query z <= token_sort_ratio query c')%Q).
Proof.
  revert done1 done2 c. induction ps as [|p ps IH]; intros done1 done2 c H1 H2.
  - exists c, done1, done2. rewrite app_nil_r. easy.
  - cbn [fold_left].
    change (pick query (Some (c, token_sort_ratio query c)) p)
      with (if Qgtb (token_sort_ratio query p) (token_sort_ratio query c)
            then Some (p, token_sort_ratio query p)
            else Some (c, token_sort_ratio query c)).
    destruct (Qgtb (token_sort_ratio query p) (token_sort_ratio query c)) eqn:E.
    + apply Qgtb_true in E.
      destruct (IH (done1 ++ c :: done2) [] p) as (c' & l1 & l2 & Hf & Hl & Hlt & Hle).
      * intros z Hz. apply in_app_or in Hz. destruct Hz as [Hz|[<-|Hz]].
        -- eapply Qlt_trans; [now apply H1 | exact E].
        -- exact E.
        -- eapply Qle_lt_trans; [now apply H2 | exact E].
      * intros z [].
      * exists c', l1, l2. split; [exact Hf|]. split; [|easy].
        rewrite <- Hl. simpl. now rewrite <- !app_assoc.
    + apply Qgtb_false in E.
      destruct (IH done1 (done2 ++ [p]) c) as (c' & l1 & l2 & Hf & Hl & Hlt & Hle).
      * exact H1.
      * intros z Hz. apply in_app_or in Hz. destruct Hz as [Hz|[<-|[]]]; [now apply H2 | exact E].
      * exists c', l1, l2. split; [exact Hf|]. split; [|easy].
        rewrite <- Hl. now rewrite <- !app_assoc.
Qed.

(** [extractOne] selects the first phrase of maximal score. *)
Lemma extractOne_first_max (query : pystr) (patterns : list pystr) :
  patterns <> [] ->
  exists c l1 l2,
    extractOne token_sort_ratio query patterns = Some (c, token_sort_ratio query c)
    /\ patterns = l1 ++ c :: l2
    /\ (forall z, In z l1 -> (token_sort_ratio query z < token_sort_ratio query c)%Q)
    /\ (forall z, In z l2 -> (token_sort_ratio query z <= token_sort_ratio query c)%Q).
Proof.
  destruct patterns as [|p ps]; [easy|]. intros _.
  destruct (extractOne_from query ps [] [] p) as (c & l1 & l2 & Hf & Hl & H); try (intros z []).
  exists c, l1, l2. split; [exact Hf | split; [exact Hl | exact H]].
Qed.

(** C6. For every text whose normalized form is non-empty and every
    non-empty phrase list, the fuzzy matcher selects the phrase of highest
    score against the normalized text, the first one in the list on ties,
    and returns it, with its score truncated to an integer, exactly when
    that score reaches the adaptive threshold: 88 when the selected phrase
    has at most two words and 82 otherwise; below that threshold it
    returns no match. *)
Theorem fuzzy_match_adaptive_threshold (text : pystr) (patterns : list pystr) :
  _normalize_keep_paren text <> [] ->
  patterns <> [] ->
  exists choice l1 l2,
    patterns = l1 ++ choice :: l2
    /\ (forall z, In z l1 ->
          (token_sort_ratio (_normalize_keep_paren text) z
           < token_sort_ratio (_normalize_keep_paren text) choice)%Q)
    /\ (forall z, In z l2 ->
          (token_sort_ratio (_normalize_keep_paren text) z
           <= token_sort_ratio (_normalize_keep_paren text) choice)%Q)
    /\ adaptive_threshold choice
       = (if (length (Py.split choice) <=? 2)%nat then 88 else 82)%Z
    /\ ((inject_Z (adaptive_threshold choice)
         <= token_sort_ratio (_normalize_keep_paren text) choice)%Q ->
        _fuzzy_match token_sort_ratio text patterns
        = Some (choice, int_of_score (token_sort_ratio (_normalize_keep_paren text) choice)))
    /\ ((token_sort_ratio (_normalize_keep_paren text) choice
         < inject_Z (adaptive_threshold choice))%Q ->
        _fuzzy_match token_sort_ratio text patterns = None).
Proof.
  intros Htxt Hpat.
  destruct (extractOne_first_max (_normalize_keep_paren text) patterns Hpat)
    as (c & l1 & l2 & Hex & Hl & Hlt & Hle).
  exists c, l1, l2. split; [exact Hl|]. split; [exact Hlt|]. split; [exact Hle|].
  split; [reflexivity|].
  unfold _fuzzy_match. rewrite Hex. cbn [unpack].
  destruct (_normalize_keep_paren text) as [|x txt] eqn:En; [easy|].
  cbn [Py.truthy negb]. fold (adaptive_threshold c).
  destruct c as [|y c].
  - pose proof (ratio_empty_choice (x :: txt) Htxt) as H0.
    split; [|reflexivity].
    intros Hge. rewrite H0 in Hge. exfalso. revert Hge. vm_compute. intros H. now apply H.
  - cbn [Py.truthy negb]. split; intros H.
    + apply Qle_bool_iff in H. now rewrite H.
    + destruct (Qle_bool _ _) eqn:E; [|reflexivity].
      apply Qle_bool_iff in E. exfalso. exact (Qlt_not_le _ _ H E).
Qed.

End Fuzzy.

Lemma ratio_85_empty_choice (query : pystr) : query <> [] -> (ratio_85 query [] == 0)%Q.
Proof. reflexivity. Qed.

(** C6 on a four-word phrase scoring 85: it is returned. *)
Lemma fuzzy_match_adaptive_threshold_witness :
  exists choice l1 l2,
    [str "sort each string again"] = l1 ++ choice :: l2
    /\ (forall z, In z l1 ->
          (ratio_85 (_normalize_keep_paren (str "sorting strings")) z
           < ratio_85 (_normalize_keep_paren (str "sorting strings")) choice)%Q)
    /\ (forall z, In z l2 ->
          (ratio_85 (_normalize_keep_paren (str "sorting strings")) z
           <= ratio_85 (_normalize_keep_paren (str "sorting strings")) choice)%Q)
    /\ adaptive_threshold choice
       = (if (length (Py.split choice) <=? 2)%nat then 88 else 82)%Z
    /\ ((inject_Z (adaptive_threshold choice)
         <= ratio_85 (_normalize_keep_paren (str "sorting strings")) choice)%Q ->
        _fuzzy_match ratio_85 (str "sorting strings") [str "sort each string again"]
        = Some (choice,
                int_of_score (ratio_85 (_normalize_keep_paren (str "sorting strings")) choice)))
    /\ ((ratio_85 (_normalize_keep_paren (str "sorting strings")) choice
         < inject_Z (adaptive_threshold choice))%Q ->
        _fuzzy_match ratio_85 (str "sorting strings") [str "sort each string again"] = None).
Proof.
  apply (fuzzy_match_adaptive_threshold ratio_85 ratio_85_empty_choice
           (str "sorting strings") [str "sort each string again"]).
  - vm_compute. discriminate.
  - discriminate.
Defined.

(** A best score of 85 is a match for a four-word phrase and none for a
    two-word phrase. *)
Lemma fuzzy_score_85_long_and_short :
  _fuzzy_match ratio_85 (str "sorting strings") [str "sort each string again"]
  = Some (str "sort each string again", 85%Z)
  /\ _fuzzy_match ratio_85 (str "sorting strings") [str "sort each"] = None.
Proof. split; vm_compute; reflexivity. Qed.

(** ** Splitting and joining *)

Lemma split_head_nonspace (c : ascii) (s : pystr) :
  Py.isspace c = false -> Py.split (c :: s) <> [].
Proof.
  intros H. simpl. rewrite H. destruct s as [|d s]; [easy|].
  destruct (Py.isspace d); [easy|]. now destruct (Py.split (d :: s)).
Qed.

Lemma split_cons_space (c : ascii) (s : pystr) :
  Py.isspace c = true -> Py.split (c :: s) = Py.split s.
Proof. intros H. simpl. now rewrite H. Qed.

(** A character that is not whitespace starts or extends the first token. *)
Lemma split_cons_nonspace (c : ascii) (s : pystr) :
  Py.isspace c = false ->
  Py.split (c :: s)
  = match s with
    | [] => [[c]]
    | d :: _ =>
        if Py.isspace d then [c] :: Py.split s
        else match Py.split s with
             | t :: ts => (c :: t) :: ts
             | [] => [[c]]
             end
    end.
Proof. intros H. cbn [Py.split]. now rewrite H. Qed.

Lemma split_app_space (a b : pystr) (c : ascii) :
  Py.isspace c = true -> Py.split (a ++ c :: b) = Py.split a ++ Py.split b.
Proof.
  intros Hc. induction a as [|x a IH].
  - now rewrite app_nil_l, split_cons_space.
  - rewrite <- app_comm_cons. destruct (Py.isspace x) eqn:Hx.
    + now rewrite !split_cons_space.
    + rewrite !split_cons_nonspace by exact Hx. destruct a as [|d a].
      * rewrite app_nil_l, Hc, split_cons_space by exact Hc. reflexivity.
      * rewrite <- app_comm_cons. rewrite <- app_comm_cons in IH.
        destruct (Py.isspace d) eqn:Hd.
        -- now rewrite IH.
        -- rewrite IH. pose proof (split_head_nonspace d a Hd) as Hne.
           now destruct (Py.split (d :: a)).
Qed.

Lemma split_spaceless (t : pystr) : spaceless t -> t <> [] -> Py.split t = [t].
Proof.
  induction t as [|c t IH]; intros Hs Hne; [easy|].
  inversion Hs as [|? ? Hc Ht]; subst.
  rewrite split_cons_nonspace by exact Hc. destruct t as [|d t]; [reflexivity|].
  inversion Ht as [|? ? Hd _]; subst. rewrite Hd. now rewrite IH.
Qed.

Lemma split_spaceless_filter (t : pystr) :
  spaceless t -> Py.split t = List.filter Py.truthy [t].
Proof.
  intros Hs. destruct t as [|c t]; [reflexivity|]. now apply split_spaceless.
Qed.

(** Splitting a join of whitespace-free pieces gives back the non-empty
    pieces. *)
Lemma split_join_spaceless (ts : list pystr) :
  Forall spaceless ts -> Py.split (Py.join (str " ") ts) = List.filter Py.truthy ts.
Proof.
  induction ts as [|t ts IH]; intros H; [reflexivity|].
  inversion H as [|? ? Ht Hts]; subst. destruct ts as [|t' ts].
  - now apply split_spaceless_filter.
  - change (Py.join (str " ") (t :: t' :: ts))
      with (t ++ " "%char :: Py.join (str " ") (t' :: ts)).
    rewrite split_app_space by reflexivity. rewrite IH by exact Hts.
    rewrite (split_spaceless_filter t Ht).
    cbn [List.filter]. now destruct (Py.truthy t).
Qed.

(** The tokens [split] returns are non-empty and free of whitespace. *)
Lemma split_tokens (s t : pystr) : In t (Py.split s) -> spaceless t /\ t <> [].
Proof.
  revert t. induction s as [|c s IH]; intros t Hin; [easy|].
  destruct (Py.isspace c) eqn:Hc.
  - rewrite split_cons_space in Hin by exact Hc. now apply IH.
  - rewrite split_cons_nonspace in Hin by exact Hc. destruct s as [|d s].
    + destruct Hin as [<-|[]]. split; [now repeat constructor | easy].
    + destruct (Py.isspace d) eqn:Hd.
      * destruct Hin as [<-|Hin]; [|now apply IH].
        split; [now repeat constructor | easy].
      * destruct (Py.split (d :: s)) as [|u us] eqn:Es.
        -- destruct Hin as [<-|[]]. split; [now repeat constructor | easy].
        -- destruct Hin as [<-|Hin].
           ++ destruct (IH u (or_introl eq_refl)) as [Hu _].
              split; [now constructor | easy].
           ++ apply IH. now right.
Qed.

Lemma isspace_lower_char (c : ascii) : Py.isspace (Py.lower_char c) = Py.isspace c.
Proof. destruct c as [[] [] [] [] [] [] [] []]; reflexivity. Qed.

Lemma spaceless_lower (t : pystr) : spaceless t -> spaceless (Py.lower t).
Proof.
  induction 1 as [|c t Hc _ IH]; constructor; [|exact IH].
  now rewrite isspace_lower_char.
Qed.

(** ** The lemma stage *)

Lemma In_range_down (n hi : nat) : In n (Py.range_down hi) <-> (1 <= n <= hi)%nat.
Proof.
  induction hi as [|hi IH]; simpl.
  - lia.
  - rewrite IH. lia.
Qed.

Lemma In_slice {A} (x : A) (i n : nat) (xs : list A) : In x (Py.slice i n xs) -> In x xs.
Proof.
  unfold Py.slice. intros H.
  rewrite <- (firstn_skipn i xs). apply in_or_app. right.
  rewrite <- (firstn_skipn n (skipn i xs)). apply in_or_app. now left.
Qed.

Section LemmaStage.

Variable nlp : option (pystr -> list Token).

(** The lemma of a token that is not a whitespace token holds no whitespace. *)
Hypothesis lemmas_spaceless :
  forall run, nlp = Some run ->
  forall text tok, In tok (run text) -> is_space tok = false -> spaceless (lemma_ tok).

Lemma lemmatize_spaceless (text t : pystr) :
  In t (_lemmatize_tokens nlp text) -> spaceless t.
Proof.
  unfold _lemmatize_tokens. destruct (Py.truthy text); [|easy]. cbn [negb].
  destruct nlp as [run|] eqn:E.
  - intros H. apply in_map_iff in H. destruct H as (tok & <- & Htok).
    apply filter_In in Htok. destruct Htok as [Hin Hsp].
    apply spaceless_lower. apply (lemmas_spaceless run eq_refl text tok Hin).
    now apply negb_true_iff.
  - intros H. now apply split_tokens in H.
Qed.

(** Condition (1) as the loop tests it. *)
Let present (tokens : list pystr) (p : pystr) : bool :=
  forallb (fun pt => Py.mem pt tokens) (Py.split (_normalize_keep_paren p)).

Lemma present_spec (tokens : list pystr) (p : pystr) :
  present tokens p = true <-> all_tokens_present tokens p.
Proof.
  unfold present, all_tokens_present. rewrite forallb_forall.
  split; intros H pt Hpt; apply mem_In; now apply H.
Qed.

(** With whitespace-free lemmas, an n-gram hit is also a token-set hit. *)
Lemma ngram_tokens_present (tokens : list pystr) (p : pystr) :
  Forall spaceless tokens -> is_ngram tokens p -> all_tokens_present tokens p.
Proof.
  intros Hs (n & i & _ & _ & E) pt Hpt. rewrite E in Hpt.
  rewrite split_join_spaceless in Hpt.
  - apply filter_In in Hpt. destruct Hpt as [Hpt _]. now apply In_slice in Hpt.
  - rewrite List.Forall_forall in *. intros t Ht. apply Hs. now apply In_slice in Ht.
Qed.


(** What the n-gram loops can return. *)
Lemma ngram_loop_hit (tokens patterns : list pystr) (p : pystr) :
  Py.first_some
    (fun n =>
       Py.first_some
         (fun i =>
            Py.first_some
              (fun q =>
                 if Py.str_eqb (_normalize_keep_paren q)
                      (Py.join (str " ") (Py.slice i n tokens))
                 then Some q else None)
              patterns)
         (seq 0 (length tokens - n + 1)))
    (Py.range_down (Nat.min 5 (length tokens))) = Some p ->
  In p patterns /\ is_ngram tokens p.
Proof.
  intros H. apply first_some_Some in H. destruct H as (n1 & n & n2 & En & H & _).
  apply first_some_Some in H. destruct H as (i1 & i & i2 & Ei & H & _).
  apply first_some_Some in H. destruct H as (l1 & q & l2 & El & H & _).
  destruct (Py.str_eqb _ _) eqn:E; [|easy]. inversion H; subst q.
  apply str_eqb_eq in E. split.
  - rewrite El. apply in_or_app. right. now left.
  - assert (Hn : In n (Py.range_down (Nat.min 5 (length tokens))))
      by (rewrite En; apply in_or_app; right; now left).
    assert (Hi : In i (seq 0 (length tokens - n + 1)))
      by (rewrite Ei; apply in_or_app; right; now left).
    apply In_range_down in Hn. apply in_seq in Hi.
    exists n, i. split; [exact Hn|]. split; [lia | exact E].
Qed.

(** On a text with lemmas, the stage returns what its first loop finds. *)
Lemma lemma_token_match_first_loop (text : pystr) (patterns : list pystr) :
  _lemmatize_tokens nlp text <> [] ->
  _lemma_token_match nlp text patterns
  = Py.first_some
      (fun p => if present (_lemmatize_tokens nlp text) p then Some p else None)
      patterns.
Proof.
  intros Hne. unfold _lemma_token_match.
  assert (Hs : Forall spaceless (_lemmatize_tokens nlp text)).
  { apply List.Forall_forall. intros t. apply lemmatize_spaceless. }
  destruct (_lemmatize_tokens nlp text) as [|t0 ts] eqn:Et; [easy|].
  cbv zeta.
  match goal with
  | |- match ?a with Some _ => _ | None => ?loop end = ?b =>
      change b with a; destruct a as [p|] eqn:E1; [reflexivity|];
      destruct loop as [p|] eqn:E2; [exfalso|reflexivity]
  end.
  apply ngram_loop_hit in E2. destruct E2 as [Hin Hng].
  rewrite first_some_None in E1. specialize (E1 p Hin). cbv beta in E1.
  assert (present (t0 :: ts) p = true) as Hp.
  { apply present_spec. now apply ngram_tokens_present. }
  unfold present in Hp. now rewrite Hp in E1.
Qed.


End LemmaStage.

Lemma no_pipeline_lemmas_spaceless :
  forall run, @None (pystr -> list Token) = Some run ->
  forall text tok, In tok (run text) -> is_space tok = false -> spaceless (lemma_ tok).
Proof. intros run H. discriminate H. Qed.


(** The run behind the witness: the second phrase is returned. *)
Lemma lemma_stage_example :
  _lemma_token_match None (str "even or odd") [str "odd/even splits"; str "odd/even"]
  = Some (str "odd/even").
Proof. vm_compute. reflexivity. Qed.

(** ** The normalizer *)

(** *** Character facts, checked on all 256 code points *)

Ltac by_cases_on c := destruct c as [[] [] [] [] [] [] [] []]; vm_compute; try reflexivity; try discriminate; auto.

Lemma isspace_not_word (c : ascii) : Py.isspace c = true -> Py.isword c = false.
Proof. by_cases_on c. Qed.

Lemma is_v_word (c : ascii) : is_v c = true -> Py.isword c = true.
Proof. by_cases_on c. Qed.

Lemma is_s_word (c : ascii) : is_s c = true -> Py.isword c = true.
Proof. by_cases_on c. Qed.

Lemma is_v_kept (c : ascii) : is_v c = true -> Detectors.kept c = true.
Proof. by_cases_on c. Qed.

Lemma is_v_not_space (c : ascii) : is_v c = true -> Py.isspace c = false.
Proof. by_cases_on c. Qed.

Lemma is_v_lower (c : ascii) : is_v (Py.lower_char c) = is_v c.
Proof. by_cases_on c. Qed.

Lemma is_s_lower (c : ascii) : is_s (Py.lower_char c) = is_s c.
Proof. by_cases_on c. Qed.

Lemma isword_lower (c : ascii) : Py.isword (Py.lower_char c) = Py.isword c.
Proof. by_cases_on c. Qed.

Lemma kept_lower (c : ascii) : Detectors.kept (Py.lower_char c) = Detectors.kept c.
Proof. by_cases_on c. Qed.

Lemma lower_char_idem (c : ascii) : Py.lower_char (Py.lower_char c) = Py.lower_char c.
Proof. by_cases_on c. Qed.

Lemma kept_blank (c : ascii) : Detectors.kept (blank c) = true.
Proof. by_cases_on c. Qed.

Lemma blank_kept (c : ascii) : Detectors.kept c = true -> blank c = c.
Proof. unfold blank. now intros ->. Qed.

Lemma kept_not_slash (c : ascii) : Detectors.kept c = true -> Py.chr_eqb c "/" = false.
Proof. by_cases_on c. Qed.

Lemma kept_plain (c : ascii) : Detectors.kept c = true -> plain c.
Proof. unfold plain. by_cases_on c. Qed.

Lemma ascii_alnum_kept (c : ascii) : Py.is_ascii_alnum c = true -> Detectors.kept c = true.
Proof. by_cases_on c. Qed.

Lemma plain_blank_word (c : ascii) : plain c -> Py.isword (blank c) = Py.isword c.
Proof.
  unfold plain, blank. intros H. destruct (Detectors.kept c) eqn:K; [reflexivity|].
  destruct (Py.isword c) eqn:W; [|reflexivity].
  rewrite (ascii_alnum_kept c (H eq_refl)) in K. discriminate.
Qed.

Lemma is_v_blank (c : ascii) : is_v (blank c) = is_v c.
Proof. by_cases_on c. Qed.

Lemma is_s_blank (c : ascii) : is_s (blank c) = is_s c.
Proof. by_cases_on c. Qed.

(** *** The two substitutions, as plain list functions *)

Lemma match_at_stray (prev : option ascii) (c : ascii) (s : pystr) :
  Re.match_at Detectors.stray prev (c :: s)
  = if Detectors.kept c then None else Some s.
Proof. unfold Re.match_at, Detectors.stray. cbn. now destruct (Detectors.kept c). Qed.

Lemma sub_stray (s : pystr) : Re.sub Detectors.stray (str " ") s = map blank s.
Proof.
  unfold Re.sub. generalize (@None ascii) as prev.
  induction s as [|c s IH]; intros prev; [reflexivity|].
  cbn [Re.sub_from map]. rewrite match_at_stray. unfold blank.
  destruct (Detectors.kept c).
  - now rewrite IH.
  - replace (length (c :: s) - length s)%nat with 1%nat by (cbn [length]; lia).
    cbn. now rewrite IH.
Qed.

Lemma at_boundary_word (prev : option ascii) (a : ascii) (s : pystr) :
  Py.isword a = true -> Re.at_boundary prev (a :: s) = negb (Re.is_word_opt prev).
Proof. intros H. unfold Re.at_boundary. cbn. rewrite H. now destruct (Re.is_word_opt prev). Qed.

Lemma at_boundary_after_word (b : ascii) (s : pystr) :
  Py.isword b = true -> Re.at_boundary (Some b) s = negb (Re.is_word_opt (head s)).
Proof. intros H. unfold Re.at_boundary. cbn. now rewrite H. Qed.

(** Where [\bvs\b] matches, and what it leaves. *)
Lemma match_at_vs_word (prev : option ascii) (s : pystr) :
  Re.match_at Detectors.vs_word prev s
  = match s with
    | a :: b :: rest => if vs_here prev a b rest then Some rest else None
    | _ => None
    end.
Proof.
  unfold Re.match_at, Detectors.vs_word, Re.word, vs_here.
  cbn [str list_ascii_of_string fold_right Re.rmatch Re.lit].
  change (Py.lower_char "v") with "v"%char. change (Py.lower_char "s") with "s"%char.
  fold is_v is_s.
  destruct s as [|a [|b rest]].
  - now destruct (Re.at_boundary prev []).
  - destruct (Re.at_boundary prev [a]); [|reflexivity]. now destruct (Py.chr_eqb _ _).
  - fold (is_v a). fold (is_s b). destruct (is_v a) eqn:Ha.
    + rewrite (at_boundary_word prev a (b :: rest) (is_v_word a Ha)).
      destruct (Re.is_word_opt prev); [now destruct (is_s b)|]. cbn [negb andb].
      destruct (is_s b) eqn:Hb; [|reflexivity].
      rewrite (at_boundary_after_word b rest (is_s_word b Hb)).
      now destruct (Re.is_word_opt (head rest)).
    + now destruct (Re.at_boundary prev (a :: b :: rest)).
Qed.

Lemma pad_cons2 (prev : option ascii) (a b : ascii) (rest : pystr) :
  pad prev (a :: b :: rest)
  = if vs_here prev a b rest then str " vs " ++ pad (Some b) rest
    else a :: pad (Some a) (b :: rest).
Proof. reflexivity. Qed.

Lemma pad_cons_other (prev : option ascii) (a : ascii) (s : pystr) :
  is_v a = false -> pad prev (a :: s) = a :: pad (Some a) s.
Proof.
  intros H. destruct s as [|b rest]; [reflexivity|].
  rewrite pad_cons2. unfold vs_here. now rewrite H.
Qed.

Lemma sub_from_vs_word (n : nat) :
  forall (s : pystr) (prev : option ascii),
    (length s <= n)%nat ->
    Re.sub_from Detectors.vs_word (str " vs ") 0 prev s = pad prev s.
Proof.
  induction n as [|n IH]; intros s prev Hlen.
  - destruct s; [reflexivity | cbn [length] in Hlen; lia].
  - destruct s as [|a s]; [reflexivity|].
    cbn [Re.sub_from]. rewrite match_at_vs_word.
    destruct s as [|b rest]; [reflexivity|]. rewrite pad_cons2.
    cbn [length] in Hlen. destruct (vs_here prev a b rest).
    + replace (length (a :: b :: rest) - length rest)%nat with 2%nat by (cbn [length]; lia).
      cbn [Re.sub_from]. rewrite IH by lia. reflexivity.
    + f_equal. apply IH. cbn [length]. lia.
Qed.

Lemma sub_vs_word (s : pystr) : Re.sub Detectors.vs_word (str " vs ") s = pad None s.
Proof. unfold Re.sub. now apply (sub_from_vs_word (length s)). Qed.

Lemma replace_slash (s : pystr) : Py.replace "/" (str " ") s = map unslash s.
Proof.
  unfold Py.replace, unslash. induction s as [|c s IH]; [reflexivity|].
  cbn [flat_map map]. rewrite IH. now destruct (Py.chr_eqb c "/").
Qed.

(** The normalizer, with its substitutions spelled out. *)
Lemma normalize_unfold (x : pystr) :
  _normalize_keep_paren x
  = Py.lower
      (Py.join (str " ")
         (Py.split
            (map blank (pad None (map unslash (Py.strip x)))))).
Proof.
  unfold _normalize_keep_paren. destruct x as [|c x]; [reflexivity|].
  cbn [Py.truthy negb]. now rewrite replace_slash, sub_vs_word, sub_stray.
Qed.

(** *** Padding "vs" *)

Lemma pad_prev (p q : option ascii) (s : pystr) :
  Re.is_word_opt p = Re.is_word_opt q -> pad p s = pad q s.
Proof.
  intros H. destruct s as [|a [|b rest]]; [reflexivity..|].
  rewrite !pad_cons2. unfold vs_here. now rewrite H.
Qed.

Lemma pad_after_word (prev : option ascii) (b : ascii) (rest : pystr) :
  Re.is_word_opt prev = true -> pad prev (b :: rest) = b :: pad (Some b) rest.
Proof.
  intros H. destruct rest as [|c rest]; [reflexivity|].
  rewrite pad_cons2. unfold vs_here. rewrite H. cbn [negb]. now rewrite andb_false_r.
Qed.

Lemma head_pad_after_word (prev : option ascii) (s : pystr) :
  Re.is_word_opt prev = true -> head (pad prev s) = head s.
Proof.
  intros H. destruct s as [|b rest]; [reflexivity|]. now rewrite pad_after_word.
Qed.

Lemma space_not_v (c : ascii) : Py.isspace c = true -> is_v c = false.
Proof.
  intros H. destruct (is_v c) eqn:E; [|reflexivity].
  apply is_v_not_space in E. congruence.
Qed.

Lemma space_not_s (c : ascii) : Py.isspace c = true -> is_s c = false.
Proof.
  intros H. destruct (is_s c) eqn:E; [|reflexivity].
  apply is_s_word in E. apply isspace_not_word in H. congruence.
Qed.

(** Padding works on each side of a whitespace character separately. *)
Lemma pad_app_space (n : nat) :
  forall (a b : pystr) (c : ascii) (p : option ascii),
    (length a <= n)%nat ->
    Py.isspace c = true ->
    pad p (a ++ c :: b) = pad p a ++ c :: pad None b.
Proof.
  induction n as [|n IH]; intros a b c p Hlen Hc.
  - destruct a; [|cbn [length] in Hlen; lia].
    change (pad p [] ++ c :: pad None b) with (c :: pad None b).
    cbn [app]. rewrite (pad_cons_other p c b (space_not_v c Hc)).
    f_equal. apply pad_prev. cbn. now rewrite (isspace_not_word c Hc).
  - destruct a as [|x [|y a]].
    + apply (IH [] b c p); [cbn; lia | exact Hc].
    + change (pad p [x] ++ c :: pad None b) with (x :: c :: pad None b).
      cbn [app]. rewrite pad_cons2. unfold vs_here.
      rewrite (space_not_s c Hc), andb_false_r. cbn [andb].
      rewrite (pad_cons_other (Some x) c b (space_not_v c Hc)).
      do 2 f_equal. apply pad_prev. cbn. now rewrite (isspace_not_word c Hc).
    + cbn [length] in Hlen. cbn [app]. rewrite !pad_cons2.
      assert (Hv : vs_here p x y (a ++ c :: b) = vs_here p x y a).
      { unfold vs_here. destruct a; [|reflexivity].
        cbn. now rewrite (isspace_not_word c Hc). }
      rewrite Hv. destruct (vs_here p x y a).
      * rewrite (IH a b c (Some y)); [|lia|exact Hc]. now rewrite <- app_assoc.
      * rewrite app_comm_cons. rewrite (IH (y :: a) b c (Some x)); [reflexivity| |exact Hc].
        cbn [length]. lia.
Qed.

Section PadMap.

(** A character map that the padding cannot tell from the identity. *)
Variable f : ascii -> ascii.
Hypothesis f_v : forall c, is_v (f c) = is_v c.
Hypothesis f_s : forall c, is_s (f c) = is_s c.
Hypothesis f_vs : map f (str " vs ") = str " vs ".

Lemma pad_map (n : nat) :
  forall (s : pystr) (p : option ascii),
    (length s <= n)%nat ->
    Forall (fun c => Py.isword (f c) = Py.isword c) s ->
    pad p (map f s) = map f (pad p s).
Proof.
  induction n as [|n IH]; intros s p Hlen Hs.
  - destruct s; [reflexivity | cbn [length] in Hlen; lia].
  - destruct s as [|a [|b rest]]; [reflexivity..|].
    cbn [length] in Hlen. cbn [map]. rewrite !pad_cons2.
    inversion Hs as [|? ? Ha Hs1]; subst. inversion Hs1 as [|? ? Hb Hrest]; subst.
    assert (Hv : vs_here p (f a) (f b) (map f rest) = vs_here p a b rest).
    { unfold vs_here. rewrite f_v, f_s. do 2 f_equal.
      destruct rest as [|c rest]; [reflexivity|].
      inversion Hrest; subst. cbn. congruence. }
    rewrite Hv. destruct (vs_here p a b rest).
    + rewrite map_app, f_vs. f_equal.
      rewrite <- (IH rest (Some b)); [|lia|exact Hrest].
      apply pad_prev. cbn. exact Hb.
    + cbn [map]. f_equal.
      rewrite <- (IH (b :: rest) (Some a)); [|cbn [length]; lia|exact Hs1].
      apply pad_prev. cbn. exact Ha.
Qed.

End PadMap.

Lemma pad_blank (s : pystr) :
  Forall plain s -> pad None (map blank s) = map blank (pad None s).
Proof.
  intros H. apply (pad_map blank is_v_blank is_s_blank eq_refl (length s)); [lia|].
  revert H. apply List.Forall_impl. intros c Hc. now apply plain_blank_word.
Qed.

Lemma pad_lower (s : pystr) : pad None (Py.lower s) = Py.lower (pad None s).
Proof.
  apply (pad_map Py.lower_char is_v_lower is_s_lower eq_refl (length s)); [lia|].
  apply List.Forall_forall. intros c _. apply isword_lower.
Qed.

(** *** Padding twice *)

Lemma split_cons_glue (a : ascii) (s : pystr) :
  Py.isspace a = false ->
  Py.split (a :: s)
  = if glue s
    then match Py.split s with
         | t :: ts => (a :: t) :: ts
         | [] => [[a]]
         end
    else [a] :: Py.split s.
Proof.
  intros H. rewrite split_cons_nonspace by exact H.
  destruct s as [|d s]; [reflexivity|]. cbn [glue]. now destruct (Py.isspace d).
Qed.

Lemma same_tokens_refl (s : pystr) : same_tokens s s.
Proof. now split. Qed.

Lemma same_tokens_cons (a : ascii) (s1 s2 : pystr) :
  same_tokens s1 s2 -> same_tokens (a :: s1) (a :: s2).
Proof.
  intros [Hs Hg]. split; [|reflexivity]. destruct (Py.isspace a) eqn:Ha.
  - now rewrite !split_cons_space.
  - now rewrite !split_cons_glue, Hs, Hg.
Qed.

(** Padding an already padded string only adds whitespace next to
    whitespace.  [q] is the character before the padded string, [p] the
    one before the original. *)
Lemma pad_pad (n : nat) :
  forall (s : pystr) (p q : option ascii),
    (length s <= n)%nat ->
    Re.is_word_opt q = Re.is_word_opt p
    \/ (Re.is_word_opt q = false /\ Re.is_word_opt (head s) = false) ->
    same_tokens (pad q (pad p s)) (pad p s).
Proof.
  induction n as [|n IH]; intros s p q Hlen Hctx.
  - destruct s; [apply same_tokens_refl | cbn [length] in Hlen; lia].
  - destruct s as [|a [|b rest]]; [apply same_tokens_refl..|].
    cbn [length] in Hlen. rewrite pad_cons2. destruct (vs_here p a b rest) eqn:Hv.
    + (* the inner pass padded here: the outer one pads the same "vs" again *)
      assert (Hrest : Re.is_word_opt (head rest) = false).
      { unfold vs_here in Hv. apply andb_true_iff in Hv. destruct Hv as [_ Hv].
        now apply negb_true_iff in Hv. }
      destruct (IH rest (Some b) (Some " "%char)) as [Hs Hg]; [lia | right; now split |].
      set (R := pad (Some b) rest) in *.
      change (str " vs " ++ R) with (" "%char :: "v"%char :: "s"%char :: " "%char :: R).
      rewrite (pad_cons_other q " " _ eq_refl).
      rewrite pad_cons2.
      change (vs_here (Some " "%char) "v" "s" (" "%char :: R)) with true. cbv iota.
      rewrite (pad_cons_other (Some "s"%char) " " R eq_refl).
      split; [|reflexivity].
      change (" "%char :: str " vs " ++ " "%char :: pad (Some " "%char) R)
        with (str "  vs" ++ " "%char :: " "%char :: pad (Some " "%char) R).
      change (" "%char :: "v"%char :: "s"%char :: " "%char :: R)
        with (str " vs" ++ " "%char :: R).
      rewrite !split_app_space by reflexivity.
      rewrite (split_cons_space " " _ eq_refl). now rewrite Hs.
    + (* no match here for the inner pass, hence none for the outer one *)
      set (R := pad (Some a) (b :: rest)).
      assert (Hout : pad q (a :: R) = a :: pad (Some a) R).
      { destruct (is_v a) eqn:Ha; [|now apply pad_cons_other].
        pose proof (is_v_word a Ha) as Hwa.
        assert (HR : R = b :: pad (Some b) rest) by (apply pad_after_word; exact Hwa).
        rewrite HR, pad_cons2.
        assert (Hf : vs_here q a b (pad (Some b) rest) = false); [|now rewrite Hf, <- HR].
        unfold vs_here in *. rewrite Ha in *. cbn [andb] in *.
        destruct (is_s b) eqn:Hb; [|reflexivity]. cbn [andb] in *.
        rewrite (head_pad_after_word (Some b) rest (is_s_word b Hb)).
        destruct (Re.is_word_opt (head rest)); [now rewrite andb_false_r|].
        rewrite andb_true_r in *. apply negb_false_iff in Hv.
        destruct Hctx as [Hq|[_ Hh]]; [now rewrite Hq, Hv|].
        cbn in Hh. congruence. }
      rewrite Hout. apply same_tokens_cons.
      apply IH; [cbn [length]; lia | now left].
Qed.

Lemma split_pad_pad (s : pystr) :
  Py.split (pad None (pad None s)) = Py.split (pad None s).
Proof. apply (pad_pad (length s) s None None); [lia | now left]. Qed.

(** *** Token by token *)

Lemma first_space (z : pystr) :
  spaceless z
  \/ exists t c r, z = t ++ c :: r /\ spaceless t /\ Py.isspace c = true.
Proof.
  induction z as [|x z IH]; [left; constructor|].
  destruct (Py.isspace x) eqn:Hx.
  - right. exists [], x, z. repeat split; [constructor | exact Hx].
  - destruct IH as [Hz|(t & c & r & -> & Ht & Hc)].
    + left. now constructor.
    + right. exists (x :: t), c, r. repeat split; [now constructor | exact Hc].
Qed.

Section Tokenwise.

(** A function of a string that treats whitespace as a mere separator. *)
Variable B : Type.
Variable F : pystr -> list B.
Hypothesis F_nil : F [] = [].
Hypothesis F_app_space :
  forall a c b, Py.isspace c = true -> F (a ++ c :: b) = F a ++ F b.

Lemma tokenwise_split (n : nat) :
  forall z, (length z <= n)%nat -> flat_map F (Py.split z) = F z.
Proof.
  induction n as [|n IH]; intros z Hlen.
  - destruct z; [now rewrite F_nil | cbn [length] in Hlen; lia].
  - destruct (first_space z) as [Hz|(t & c & r & -> & Ht & Hc)].
    + rewrite (split_spaceless_filter z Hz). destruct z; cbn; [now rewrite F_nil|].
      now rewrite app_nil_r.
    + rewrite (split_app_space t r c Hc), flat_map_app, (F_app_space t c r Hc).
      rewrite length_app in Hlen. cbn [length] in Hlen.
      rewrite (IH r) by lia. f_equal.
      rewrite (split_spaceless_filter t Ht). destruct t; cbn; [now rewrite F_nil|].
      now rewrite app_nil_r.
Qed.

Lemma tokenwise_join (ts : list pystr) :
  F (Py.join (str " ") ts) = flat_map F ts.
Proof.
  induction ts as [|t ts IH]; [exact F_nil|].
  destruct ts as [|t' ts].
  - cbn. now rewrite app_nil_r.
  - change (Py.join (str " ") (t :: t' :: ts))
      with (t ++ " "%char :: Py.join (str " ") (t' :: ts)).
    rewrite F_app_space by reflexivity. now rewrite IH.
Qed.

(** Collapsing the whitespace of the argument changes nothing. *)
Lemma tokenwise_collapse (z : pystr) : F (Py.join (str " ") (Py.split z)) = F z.
Proof. rewrite tokenwise_join. now apply (tokenwise_split (length z)). Qed.

End Tokenwise.

Lemma split_pad_app_space (a : pystr) (c : ascii) (b : pystr) :
  Py.isspace c = true ->
  Py.split (pad None (a ++ c :: b)) = Py.split (pad None a) ++ Py.split (pad None b).
Proof.
  intros Hc. rewrite (pad_app_space (length a) a b c None (le_n _) Hc).
  now apply split_app_space.
Qed.

Lemma split_pad_collapse (z : pystr) :
  Py.split (pad None (Py.join (str " ") (Py.split z))) = Py.split (pad None z).
Proof.
  apply (tokenwise_collapse pystr (fun s => Py.split (pad None s)) eq_refl split_pad_app_space).
Qed.

(** *** Stripping *)

Lemma split_lstrip (s : pystr) : Py.split (Py.lstrip s) = Py.split s.
Proof.
  induction s as [|c s IH]; [reflexivity|]. cbn [Py.lstrip].
  destruct (Py.isspace c) eqn:Hc; [|reflexivity]. now rewrite split_cons_space.
Qed.

Lemma lstrip_decomp (s : pystr) :
  exists ws, s = ws ++ Py.lstrip s /\ Forall (fun c => Py.isspace c = true) ws.
Proof.
  induction s as [|c s (ws & E & H)]; [now exists []|]. cbn [Py.lstrip].
  destruct (Py.isspace c) eqn:Hc.
  - exists (c :: ws). split; [cbn; now rewrite <- E | now constructor].
  - now exists [].
Qed.

Lemma split_spaces (ws : pystr) :
  Forall (fun c => Py.isspace c = true) ws -> Py.split ws = [].
Proof.
  induction 1 as [|c ws Hc _ IH]; [reflexivity|]. now rewrite split_cons_space.
Qed.

Lemma split_app_spaces (a ws : pystr) :
  Forall (fun c => Py.isspace c = true) ws -> Py.split (a ++ ws) = Py.split a.
Proof.
  intros H. destruct H as [|c ws Hc Hws]; [now rewrite app_nil_r|].
  rewrite split_app_space by exact Hc. rewrite (split_spaces ws Hws). apply app_nil_r.
Qed.

Lemma split_rstrip (s : pystr) : Py.split (Py.rstrip s) = Py.split s.
Proof.
  unfold Py.rstrip. destruct (lstrip_decomp (rev s)) as (ws & E & H).
  assert (Es : s = rev (Py.lstrip (rev s)) ++ rev ws).
  { rewrite <- rev_app_distr, <- E. now rewrite rev_involutive. }
  rewrite Es at 2. symmetry. apply split_app_spaces.
  apply List.Forall_forall. intros c Hc. apply in_rev in Hc.
  revert c Hc. now apply List.Forall_forall.
Qed.

Lemma split_strip (s : pystr) : Py.split (Py.strip s) = Py.split s.
Proof. unfold Py.strip. now rewrite split_rstrip, split_lstrip. Qed.

Lemma Forall_lstrip (P : ascii -> Prop) (s : pystr) : Forall P s -> Forall P (Py.lstrip s).
Proof.
  induction 1 as [|c s Hc Hs IH]; [constructor|]. cbn [Py.lstrip].
  destruct (Py.isspace c); [exact IH | now constructor].
Qed.

Lemma Forall_strip (P : ascii -> Prop) (s : pystr) : Forall P s -> Forall P (Py.strip s).
Proof.
  intros H. unfold Py.strip, Py.rstrip.
  apply List.Forall_rev. apply Forall_lstrip. apply List.Forall_rev. now apply Forall_lstrip.
Qed.

(** *** Character maps, tokens and joins *)

Lemma split_map (f : ascii -> ascii) (s : pystr) :
  (forall c, Py.isspace (f c) = Py.isspace c) ->
  Py.split (map f s) = map (map f) (Py.split s).
Proof.
  intros Hf. induction s as [|c s IH]; [reflexivity|]. cbn [map].
  destruct (Py.isspace c) eqn:Hc.
  - rewrite !split_cons_space; [exact IH | exact Hc | now rewrite Hf].
  - rewrite !split_cons_glue; [|exact Hc | now rewrite Hf].
    assert (Hg : glue (map f s) = glue s) by (destruct s; cbn; [reflexivity | now rewrite Hf]).
    rewrite Hg, IH. destruct (glue s); [|reflexivity]. now destruct (Py.split s).
Qed.

Lemma join_map (f : ascii -> ascii) (ts : list pystr) :
  f " "%char = " "%char ->
  map f (Py.join (str " ") ts) = Py.join (str " ") (map (map f) ts).
Proof.
  intros Hf. induction ts as [|t ts IH]; [reflexivity|]. destruct ts as [|t' ts]; [reflexivity|].
  change (Py.join (str " ") (t :: t' :: ts))
    with (t ++ " "%char :: Py.join (str " ") (t' :: ts)).
  rewrite map_app. cbn [map] in *. rewrite Hf, IH. reflexivity.
Qed.

Lemma Forall_split (P : ascii -> Prop) (s : pystr) :
  Forall P s -> Forall (Forall P) (Py.split s).
Proof.
  induction 1 as [|c s Hc Hs IH]; [constructor|].
  destruct (Py.isspace c) eqn:E.
  - now rewrite split_cons_space.
  - rewrite split_cons_glue by exact E. destruct (glue s).
    + destruct (Py.split s) as [|t ts]; [now repeat constructor|].
      inversion IH; subst. constructor; [now constructor | assumption].
    + constructor; [now repeat constructor | exact IH].
Qed.

Lemma Forall_join (P : ascii -> Prop) (ts : list pystr) :
  P " "%char -> Forall (Forall P) ts -> Forall P (Py.join (str " ") ts).
Proof.
  intros Hsp. induction 1 as [|t ts Ht Hts IH]; [constructor|].
  destruct ts as [|t' ts]; [exact Ht|].
  change (Py.join (str " ") (t :: t' :: ts))
    with (t ++ " "%char :: Py.join (str " ") (t' :: ts)).
  apply List.Forall_app. split; [exact Ht | now constructor].
Qed.

Lemma map_id_on (f : ascii -> ascii) (P : ascii -> Prop) (s : pystr) :
  (forall c, P c -> f c = c) -> Forall P s -> map f s = s.
Proof.
  intros Hf. induction 1 as [|c s Hc _ IH]; [reflexivity|]. cbn. now rewrite Hf, IH.
Qed.

Lemma lower_idem (s : pystr) : Py.lower (Py.lower s) = Py.lower s.
Proof.
  unfold Py.lower. rewrite map_map. apply map_ext. exact lower_char_idem.
Qed.

(** *** Idempotence *)

(** The output of the normalizer consists of kept characters only. *)
Lemma normalize_kept (x : pystr) :
  Forall (fun c => Detectors.kept c = true) (_normalize_keep_paren x).
Proof.
  rewrite normalize_unfold. unfold Py.lower. apply List.Forall_map.
  apply (List.Forall_impl (P := fun c => Detectors.kept c = true)).
  { intros c Hc. now rewrite kept_lower. }
  apply Forall_join; [reflexivity|]. apply Forall_split.
  apply List.Forall_map. apply List.Forall_forall. intros c _. apply kept_blank.
Qed.

(** The normalizer on a string of kept characters: only the padding of
    "vs" and the collapse of whitespace remain. *)
Lemma normalize_on_kept (y : pystr) :
  Forall (fun c => Detectors.kept c = true) y ->
  _normalize_keep_paren y = Py.lower (Py.join (str " ") (Py.split (pad None y))).
Proof.
  intros Hy. rewrite normalize_unfold.
  pose proof (Forall_strip _ y Hy) as Hs.
  rewrite (map_id_on unslash _ (Py.strip y)) by
    (try exact Hs; intros c Hc; unfold unslash; now rewrite (kept_not_slash c Hc)).
  rewrite <- pad_blank by (revert Hs; apply List.Forall_impl; exact kept_plain).
  rewrite (map_id_on blank _ (Py.strip y) blank_kept Hs).
  do 2 f_equal.
  rewrite <- (tokenwise_split pystr (fun s => Py.split (pad None s)) eq_refl
                split_pad_app_space (length (Py.strip y)) (Py.strip y) (le_n _)).
  rewrite <- (tokenwise_split pystr (fun s => Py.split (pad None s)) eq_refl
                split_pad_app_space (length y) y (le_n _)).
  now rewrite split_strip.
Qed.

Lemma plain_unslash (s : pystr) : Forall plain s -> Forall plain (map unslash s).
Proof.
  intros H. apply List.Forall_map. revert H. apply List.Forall_impl.
  intros c Hc. unfold unslash. destruct (Py.chr_eqb c "/"); [|exact Hc].
  now apply kept_plain.
Qed.

(** A second pass over a normalized string changes nothing, as long as the
    string that entered the padding of "vs" was made of plain characters. *)
Lemma normalize_fixed (s : pystr) :
  Forall plain s ->
  let y := Py.lower (Py.join (str " ") (Py.split (map blank (pad None s)))) in
  Forall (fun c => Detectors.kept c = true) y ->
  _normalize_keep_paren y = y.
Proof.
  intros Hs y Hy. rewrite (normalize_on_kept y Hy). unfold y.
  rewrite <- (pad_blank s Hs).
  set (z := pad None (map blank s)).
  rewrite pad_lower.
  unfold Py.lower at 2. rewrite (split_map Py.lower_char _ isspace_lower_char).
  rewrite split_pad_collapse. unfold z. rewrite split_pad_pad. fold z.
  rewrite <- (join_map Py.lower_char _ eq_refl). fold (Py.lower (Py.join (str " ") (Py.split z))).
  apply lower_idem.
Qed.

(** X24. The normalizer is idempotent on every string that holds neither
    an underscore nor an alphanumeric character outside ASCII: for such x,
    normalize(normalize(x)) == normalize(x).  The condition is sufficient,
    not necessary. *)
Theorem normalize_idempotent_on_plain (x : pystr) :
  Forall plain x ->
  _normalize_keep_paren (_normalize_keep_paren x) = _normalize_keep_paren x.
Proof.
  intros Hx. pose proof (normalize_kept x) as Hk.
  rewrite (normalize_unfold x) in *.
  apply normalize_fixed; [|exact Hk].
  apply plain_unslash. now apply Forall_strip.
Qed.

(** X24 on a string with a slash, the word "vs" and brackets. *)
Lemma normalize_idempotent_on_plain_witness :
  _normalize_keep_paren (_normalize_keep_paren (str "Odd/Even VS(n^2)"))
  = _normalize_keep_paren (str "Odd/Even VS(n^2)").
Proof.
  apply (normalize_idempotent_on_plain (str "Odd/Even VS(n^2)")).
  repeat (apply List.Forall_cons; [intros H; first [reflexivity | discriminate H]|]).
  apply List.Forall_nil.
Defined.

(** C7. The normalizer is not idempotent.  In "_vs(" the underscore is a
    word character for [\b], so the first pass does not pad the word "vs";
    the filter that runs after the padding then removes the underscore, and
    the second pass does pad: normalize("_vs(") is "vs(" while
    normalize(normalize("_vs(")) is "vs (".  The same happens inside an
    identifier in snake case. *)
Theorem normalize_not_idempotent :
  _normalize_keep_paren (str "_vs(") = str "vs("
  /\ _normalize_keep_paren (_normalize_keep_paren (str "_vs(")) = str "vs ("
  /\ _normalize_keep_paren (str "dfs_vs(bfs)") = str "dfs vs(bfs)"
  /\ _normalize_keep_paren (_normalize_keep_paren (str "dfs_vs(bfs)")) = str "dfs vs (bfs)".
Proof. repeat split; vm_compute; reflexivity. Qed.

(** X25. Whatever the input, the second pass of the normalizer reaches a
    fixed point: a third pass changes nothing. *)
Theorem normalize_stabilizes (x : pystr) :
  _normalize_keep_paren (_normalize_keep_paren (_normalize_keep_paren x))
  = _normalize_keep_paren (_normalize_keep_paren x).
Proof.
  pose proof (normalize_kept (_normalize_keep_paren x)) as Hk.
  rewrite (normalize_unfold (_normalize_keep_paren x)) in *.
  apply normalize_fixed; [|exact Hk].
  apply plain_unslash. apply Forall_strip.
  generalize (normalize_kept x). apply List.Forall_impl. exact kept_plain.
Qed.

(** ** The repository's tests, run on the model *)

(** [test_selection_sort_inefficient_detected] *)
Example test_selection_sort :
  flags_of
    (score_pair None ratio_0
       (Some (str "Selection sort is O(n log n) and very efficient."))
       (Some (str "Selection sort is O(n^2), not O(n log n). It is inefficient for large inputs."))
       [str "inefficient"; str "complexity"])
    (str "inefficient")
  = Some (true, true).
Proof. vm_compute. reflexivity. Qed.

(** [test_anagrams_inefficient_detected] *)
Example test_anagrams :
  flags_of
    (score_pair None ratio_0
       (Some (str "Group anagrams by sorting each string repeatedly (O(n * k log k))."))
       (Some (str "Sorting each string works but is inefficient. Use a hashmap keyed by letter counts (O(n*k))."))
       [str "inefficient"])
    (str "inefficient")
  = Some (true, true).
Proof. vm_compute. reflexivity. Qed.

(** [test_bfs_complexity_detected] *)
Example test_bfs_complexity :
  flags_of
    (score_pair None ratio_0
       (Some (str "BFS explores nodes level by level but I think it's O(n*n)."))
       (Some (str "BFS runs in O(V+E), not O(n*n)."))
       [str "complexity"])
    (str "complexity")
  = Some (true, true).
Proof. vm_compute. reflexivity. Qed.

(** [test_missing_base_case_detected] *)
Example test_missing_base_case :
  flags_of
    (score_pair None ratio_0
       (Some (str "Don't worry about a base case; Python handles empty lists."))
       (Some (str "You must handle the empty list case (if not lst: return 0) to stop recursion."))
       [str "missing_base_case"])
    (str "missing_base_case")
  = Some (true, true).
Proof. vm_compute. reflexivity. Qed.

(** [score_pair("", "", ["complexity"])] *)
Example test_empty_texts :
  score_pair None ratio_0 (Some []) (Some []) [str "complexity"]
  = inr {| peer_detected := {[ str "complexity" := (false, None, None) ]};
           teacher_fixed := {[ str "complexity" := (false, None, None) ]};
           pass := false |}.
Proof. vm_compute. reflexivity. Qed.

(** * Further properties *)

(** ** The shape of a normalized text *)

Lemma kept_normal_char (c : ascii) :
  Detectors.kept c = true -> Py.isspace c = false -> normal_char (Py.lower_char c) = true.
Proof. by_cases_on c. Qed.

Lemma blank_lower_char (c : ascii) : blank (Py.lower_char c) = Py.lower_char (blank c).
Proof. by_cases_on c. Qed.

Lemma unslash_lower_char (c : ascii) : unslash (Py.lower_char c) = Py.lower_char (unslash c).
Proof. by_cases_on c. Qed.

Lemma unslash_space (c : ascii) : Py.isspace c = true -> unslash c = c.
Proof. by_cases_on c. Qed.

Lemma blank_space (c : ascii) : Py.isspace c = true -> blank c = c.
Proof. by_cases_on c. Qed.

Lemma truthy_tokens (ts : list pystr) :
  (forall t, In t ts -> t <> []) -> List.filter Py.truthy ts = ts.
Proof.
  induction ts as [|t ts IH]; intros H; [reflexivity|]. cbn [List.filter].
  destruct t as [|c t]; [now specialize (H [] (or_introl eq_refl))|].
  cbn [Py.truthy]. rewrite IH; [reflexivity|]. intros u Hu. apply H. now right.
Qed.

(** Joining the tokens of a string and splitting again gives the tokens. *)
Lemma split_join_split (s : pystr) :
  Py.split (Py.join (str " ") (Py.split s)) = Py.split s.
Proof.
  rewrite split_join_spaceless.
  - apply truthy_tokens. intros t Ht. now apply (split_tokens s t).
  - apply List.Forall_forall. intros t Ht. now apply (split_tokens s t).
Qed.

(** The normalized text has its words separated by single spaces. *)
Lemma normalize_collapsed (x : pystr) :
  Py.join (str " ") (Py.split (_normalize_keep_paren x)) = _normalize_keep_paren x.
Proof.
  rewrite normalize_unfold.
  set (z := map blank (pad None (map unslash (Py.strip x)))).
  unfold Py.lower at 1. rewrite (split_map Py.lower_char _ isspace_lower_char).
  rewrite split_join_split. now rewrite <- (join_map Py.lower_char _ eq_refl).
Qed.

Lemma normalize_normal_chars (x : pystr) :
  Forall (fun c => normal_char c = true) (_normalize_keep_paren x).
Proof.
  rewrite normalize_unfold.
  set (z := map blank (pad None (map unslash (Py.strip x)))).
  unfold Py.lower. rewrite (join_map Py.lower_char _ eq_refl).
  apply Forall_join; [reflexivity|].
  apply List.Forall_forall. intros t Ht. apply in_map_iff in Ht.
  destruct Ht as (u & <- & Hu).
  assert (Hk : Forall (fun c => Detectors.kept c = true) u).
  { assert (Hz : Forall (fun c => Detectors.kept c = true) z).
    { unfold z. apply List.Forall_map. apply List.Forall_forall. intros c _. apply kept_blank. }
    apply Forall_split in Hz. rewrite List.Forall_forall in Hz. now apply Hz. }
  destruct (split_tokens z u Hu) as [Hs _].
  apply List.Forall_map. apply List.Forall_forall. intros c Hc.
  apply kept_normal_char.
  - rewrite List.Forall_forall in Hk. now apply Hk.
  - unfold spaceless in Hs. rewrite List.Forall_forall in Hs. now apply Hs.
Qed.

(** X1. A normalized text is canonical: it holds only digits, lower-case
    letters, spaces and the symbols ^ * ( ) + -, and its words are
    separated by exactly one space, with no space in front or at the end
    (splitting it on whitespace and joining with single spaces gives it
    back). *)
Theorem normalize_output_canonical (x : pystr) :
  Forall (fun c => normal_char c = true) (_normalize_keep_paren x)
  /\ Py.join (str " ") (Py.split (_normalize_keep_paren x)) = _normalize_keep_paren x.
Proof.
  split; [apply normalize_normal_chars | apply normalize_collapsed].
Qed.

(** ** What the normalizer ignores *)

Lemma lstrip_map (f : ascii -> ascii) (s : pystr) :
  (forall c, Py.isspace (f c) = Py.isspace c) ->
  Py.lstrip (map f s) = map f (Py.lstrip s).
Proof.
  intros Hf. induction s as [|c s IH]; [reflexivity|].
  cbn [map Py.lstrip]. rewrite Hf. now destruct (Py.isspace c).
Qed.

Lemma strip_map (f : ascii -> ascii) (s : pystr) :
  (forall c, Py.isspace (f c) = Py.isspace c) ->
  Py.strip (map f s) = map f (Py.strip s).
Proof.
  intros Hf. unfold Py.strip, Py.rstrip.
  rewrite (lstrip_map f s Hf), <- map_rev, (lstrip_map f _ Hf). now rewrite map_rev.
Qed.

Lemma map_commute (f g : ascii -> ascii) (s : pystr) :
  (forall c, f (g c) = g (f c)) -> map f (map g s) = map g (map f s).
Proof. intros H. rewrite !map_map. apply map_ext. exact H. Qed.

(** X2. On texts of code points up to U+00FF, which is what [pystr]
    holds, the normalizer is case-insensitive: a text and its lower-case
    form normalize to the same string.  Nothing is stated for characters
    beyond U+00FF, where [str.lower] and [re.I] have more case partners
    than the tables of [Py] and [Re] list. *)
Theorem normalize_case_insensitive (x : pystr) :
  _normalize_keep_paren (Py.lower x) = _normalize_keep_paren x.
Proof.
  rewrite !normalize_unfold. unfold Py.lower at 2.
  rewrite (strip_map Py.lower_char x isspace_lower_char).
  rewrite (map_commute unslash Py.lower_char _ unslash_lower_char).
  fold (Py.lower (map unslash (Py.strip x))). rewrite pad_lower. unfold Py.lower at 2.
  rewrite (map_commute blank Py.lower_char _ blank_lower_char).
  rewrite (split_map Py.lower_char _ isspace_lower_char).
  rewrite <- (join_map Py.lower_char _ eq_refl).
  fold (Py.lower (Py.join (str " ")
                    (Py.split (map blank (pad None (map unslash (Py.strip x))))))).
  apply lower_idem.
Qed.

(** The tokens the normalizer produces from a string, before lower-casing. *)
Lemma normal_tokens_app_space (a : pystr) (c : ascii) (b : pystr) :
  Py.isspace c = true ->
  Py.split (map blank (pad None (map unslash (a ++ c :: b))))
  = Py.split (map blank (pad None (map unslash a)))
    ++ Py.split (map blank (pad None (map unslash b))).
Proof.
  intros Hc. rewrite map_app. cbn [map]. rewrite (unslash_space c Hc).
  rewrite (pad_app_space _ _ _ c None (le_n _) Hc).
  rewrite map_app. cbn [map]. rewrite (blank_space c Hc).
  now apply split_app_space.
Qed.

(** The normalizer sees its argument only through the argument's tokens. *)
Lemma normalize_by_tokens (x : pystr) :
  _normalize_keep_paren x
  = Py.lower
      (Py.join (str " ")
         (flat_map (fun t => Py.split (map blank (pad None (map unslash t))))
            (Py.split x))).
Proof.
  rewrite normalize_unfold. do 2 f_equal.
  rewrite <- (tokenwise_split pystr
                (fun s => Py.split (map blank (pad None (map unslash s)))) eq_refl
                normal_tokens_app_space (length (Py.strip x)) (Py.strip x) (le_n _)).
  now rewrite split_strip.
Qed.

(** X3. The normalizer ignores how the words of a text are spaced: two
    texts with the same whitespace-separated words, whatever the kind and
    amount of whitespace between and around them, normalize to the same
    string. *)
Theorem normalize_whitespace_insensitive (x y : pystr) :
  Py.split x = Py.split y -> _normalize_keep_paren x = _normalize_keep_paren y.
Proof.
  intros H. rewrite (normalize_by_tokens x), (normalize_by_tokens y). now rewrite H.
Qed.

(** X3 on two spacings of "odd vs even". *)
Lemma normalize_whitespace_insensitive_witness :
  _normalize_keep_paren (str "  odd   vs even ")
  = _normalize_keep_paren (str "odd vs even").
Proof.
  apply (normalize_whitespace_insensitive (str "  odd   vs even ") (str "odd vs even")).
  vm_compute. reflexivity.
Defined.

(** X4. With the fallback tokenizer, the tokens of a text joined by single
    spaces are the normalized text: tokenizing loses nothing of it. *)
Theorem fallback_tokens_join (text : pystr) :
  Py.join (str " ") (_lemmatize_tokens None text) = _normalize_keep_paren text.
Proof.
  unfold _lemmatize_tokens. destruct text as [|c text]; [reflexivity|].
  cbn [Py.truthy negb]. apply normalize_collapsed.
Qed.

(** ** The detector ignores case *)

Lemma all_chars_complete (c : ascii) : In c all_chars.
Proof.
  unfold all_chars. rewrite <- (ascii_nat_embedding c). apply in_map.
  apply in_seq. pose proof (nat_ascii_bounded c). lia.
Qed.

Lemma case_blind_test (p : ascii -> bool) (c : ascii) :
  forallb (fun c => Bool.eqb (p (Py.lower_char c)) (p c)) all_chars = true ->
  p (Py.lower_char c) = p c.
Proof.
  intros H. rewrite forallb_forall in H. specialize (H c (all_chars_complete c)).
  now apply Bool.eqb_prop in H.
Qed.

Lemma succeeds_orelse (x y : option pystr) :
  succeeds (Re.orelse x y) = succeeds x || succeeds y.
Proof. now destruct x. Qed.

Lemma at_boundary_lower (prev : option ascii) (s : pystr) :
  Re.at_boundary (option_map Py.lower_char prev) (Py.lower s) = Re.at_boundary prev s.
Proof.
  unfold Re.at_boundary. f_equal.
  - destruct prev; cbn; [apply isword_lower | reflexivity].
  - destruct s; cbn; [reflexivity | apply isword_lower].
Qed.

(** A case-blind pattern matches at a position of the lower-cased text
    exactly when it matches there in the text. *)
Lemma rmatch_lower (r : Re.regex) :
  case_blind r = true ->
  forall (prev : option ascii) (s : pystr) (k k' : option ascii -> pystr -> option pystr),
    (forall q s', succeeds (k' (option_map Py.lower_char q) (Py.lower s')) = succeeds (k q s')) ->
    succeeds (Re.rmatch r (option_map Py.lower_char prev) (Py.lower s) k')
    = succeeds (Re.rmatch r prev s k).
Proof.
  induction r as [|f| |r1 IH1 r2 IH2|r1 IH1 r2 IH2|r1 IH1|f]; cbn [case_blind];
    intros Hb prev s k k' Hk.
  - apply Hk.
  - destruct s as [|c s]; [reflexivity|]. cbn [Re.rmatch Py.lower map].
    rewrite (case_blind_test f c Hb). destruct (f c); [|reflexivity].
    apply (Hk (Some c) s).
  - cbn [Re.rmatch]. rewrite at_boundary_lower.
    destruct (Re.at_boundary prev s); [apply Hk | reflexivity].
  - apply andb_true_iff in Hb. destruct Hb as [H1 H2]. cbn [Re.rmatch].
    apply IH1; [exact H1|]. intros q s'. now apply IH2.
  - apply andb_true_iff in Hb. destruct Hb as [H1 H2]. cbn [Re.rmatch].
    rewrite !succeeds_orelse. now rewrite (IH1 H1 prev s k k' Hk), (IH2 H2 prev s k k' Hk).
  - cbn [Re.rmatch]. rewrite !succeeds_orelse. now rewrite (IH1 Hb prev s k k' Hk), Hk.
  - cbn [Re.rmatch]. revert prev. induction s as [|c s IHs]; intros prev;
      [cbn [Py.lower map]; apply (Hk prev [])|].
    cbn [Py.lower map]. pose proof (Hk prev (c :: s)) as Hk0. cbn [Py.lower map] in Hk0.
    rewrite (case_blind_test f c Hb). destruct (f c).
    + rewrite !succeeds_orelse, Hk0. f_equal. apply (IHs (Some c)).
    + exact Hk0.
Qed.

Lemma search_from_lower (r : Re.regex) (s : pystr) (prev : option ascii) :
  case_blind r = true ->
  Re.search_from r (option_map Py.lower_char prev) (Py.lower s) = Re.search_from r prev s.
Proof.
  intros Hb. revert prev. induction s as [|c s IH]; intros prev.
  - cbn [Re.search_from Py.lower map]. unfold Re.match_at.
    pose proof (rmatch_lower r Hb prev [] (fun _ rest => Some rest) (fun _ rest => Some rest)
                  (fun _ _ => eq_refl)) as H.
    cbn [Py.lower map] in H.
    destruct (Re.rmatch r (option_map Py.lower_char prev) [] _),
             (Re.rmatch r prev [] _); cbn in H; congruence.
  - cbn [Re.search_from Py.lower map]. unfold Re.match_at.
    pose proof (rmatch_lower r Hb prev (c :: s) (fun _ rest => Some rest)
                  (fun _ rest => Some rest) (fun _ _ => eq_refl)) as H.
    cbn [Py.lower map] in H. specialize (IH (Some c)). cbn [option_map] in IH.
    destruct (Re.rmatch r (option_map Py.lower_char prev) _ _),
             (Re.rmatch r prev (c :: s) _); cbn in H; try congruence.
    exact IH.
Qed.

Lemma first_some_ext {A B} (f g : A -> option B) (xs : list A) :
  (forall x, In x xs -> f x = g x) -> Py.first_some f xs = Py.first_some g xs.
Proof.
  induction xs as [|x xs IH]; intros H; [reflexivity|]. cbn [Py.first_some].
  rewrite (H x (or_introl eq_refl)). rewrite IH; [reflexivity|].
  intros y Hy. apply H. now right.
Qed.

Lemma detectors_case_blind :
  forallb (fun kr => case_blind (snd kr)) COMPLEXITY_REGEX = true.
Proof. vm_compute. reflexivity. Qed.

(** X5. On texts of code points up to U+00FF, which is what [pystr]
    holds, the complexity detector is case-insensitive: it reports the
    same family, or nothing, for a text and for its lower-case form.
    Nothing is stated for characters beyond U+00FF, where [re.I] lets the
    letters i, k and s of a pattern match further characters. *)
Theorem detect_case_insensitive (text : pystr) :
  _regex_complexity_detect (Py.lower text) = _regex_complexity_detect text.
Proof.
  unfold _regex_complexity_detect. apply first_some_ext. intros kr Hkr.
  pose proof detectors_case_blind as Hb. rewrite forallb_forall in Hb.
  pose proof (search_from_lower (snd kr) text None (Hb kr Hkr)) as H.
  cbn [option_map] in H. fold (Re.search (snd kr) (Py.lower text)) in H.
  fold (Re.search (snd kr) text) in H. cbv beta. now rewrite H.
Qed.

(** ** What the stages can return *)

Lemma startswith_iff (p s : pystr) :
  Py.startswith p s = true <-> exists b, s = p ++ b.
Proof.
  revert s. induction p as [|x p IH]; intros s.
  - split; [intros _; now exists s | reflexivity].
  - destruct s as [|y s]; cbn [Py.startswith].
    + split; [discriminate | intros (b & E); discriminate E].
    + rewrite andb_true_iff, chr_eqb_eq, IH. split.
      * intros [-> (b & ->)]. now exists b.
      * intros (b & E). inversion E; subst. split; [reflexivity | now exists b].
Qed.

(** [p in s] holds exactly when [s] is [a ++ p ++ b] for some [a], [b]. *)
Lemma contains_iff (p s : pystr) :
  Py.contains p s = true <-> exists a b, s = a ++ p ++ b.
Proof.
  induction s as [|y s IH].
  - cbn [Py.contains]. rewrite orb_false_r, startswith_iff. split.
    + intros (b & E). now exists [], b.
    + intros ([|x a] & b & E); [now exists b | discriminate E].
  - cbn [Py.contains]. rewrite orb_true_iff, startswith_iff, IH. split.
    + intros [(b & E)|(a & b & ->)]; [now exists [], b | now exists (y :: a), b].
    + intros ([|x a] & b & E).
      * left. now exists b.
      * right. inversion E; subst. now exists a, b.
Qed.

(** X6. The substring stage returns a phrase exactly when that phrase, as
    it is written in the list, occurs as a contiguous piece of the
    normalized text and no earlier phrase of the list does; it returns
    nothing exactly when no phrase of the list occurs so. *)
Theorem substring_stage_first_occurrence (text : pystr) (patterns : list pystr) :
  (forall q,
     _contains_any_substring text patterns = Some q <->
     exists l1 l2,
       patterns = l1 ++ q :: l2
       /\ (exists a b, _normalize_keep_paren text = a ++ q ++ b)
       /\ forall z, In z l1 -> ~ exists a b, _normalize_keep_paren text = a ++ z ++ b)
  /\ (_contains_any_substring text patterns = None <->
      forall z, In z patterns -> ~ exists a b, _normalize_keep_paren text = a ++ z ++ b).
Proof.
  split.
  - intros q. rewrite contains_any_substring_spec. split.
    + intros (l1 & l2 & E & Hq & Hl1). exists l1, l2. split; [exact E|].
      split; [now apply contains_iff|].
      intros z Hz Hocc. apply contains_iff in Hocc. rewrite (Hl1 z Hz) in Hocc. discriminate.
    + intros (l1 & l2 & E & Hq & Hl1). exists l1, l2. split; [exact E|].
      split; [now apply contains_iff|].
      intros z Hz. destruct (Py.contains z _) eqn:Ez; [|reflexivity].
      exfalso. apply (Hl1 z Hz). now apply contains_iff.
  - rewrite contains_any_substring_None. split.
    + intros H z Hz Hocc. apply contains_iff in Hocc. rewrite (H z Hz) in Hocc. discriminate.
    + intros H z Hz. destruct (Py.contains z _) eqn:Ez; [|reflexivity].
      exfalso. apply (H z Hz). now apply contains_iff.
Qed.

Lemma int_of_score_lower_bound (t : Z) (q : Q) :
  (0 <= t)%Z -> (inject_Z t <= q)%Q -> (t <= int_of_score q)%Z.
Proof.
  intros Ht H. unfold int_of_score. unfold Qle in H. cbn in H.
  apply Z.quot_le_lower_bound; [reflexivity|]. lia.
Qed.

Lemma adaptive_threshold_bounds (c : pystr) :
  (82 <= adaptive_threshold c <= 88)%Z.
Proof.
  unfold adaptive_threshold, SHORT_PHRASE_FUZZY_THRESHOLD, FUZZY_SCORE_THRESHOLD.
  destruct (_ <=? _)%nat; lia.
Qed.

Section StageResults.

Variable nlp : option (pystr -> list Token).
Variable token_sort_ratio : pystr -> pystr -> Q.

Lemma extractOne_None (query : pystr) (patterns : list pystr) :
  extractOne token_sort_ratio query patterns = None -> patterns = [].
Proof.
  intros H. destruct patterns as [|p ps]; [reflexivity|].
  destruct (extractOne_first_max token_sort_ratio query (p :: ps)) as (c & l1 & l2 & E & _);
    [discriminate|]. congruence.
Qed.

(** What a result of the fuzzy stage tells. *)
Lemma fuzzy_match_Some (text : pystr) (patterns : list pystr) (c : pystr) (n : Z) :
  _fuzzy_match token_sort_ratio text patterns = Some (c, n) ->
  c <> []
  /\ (exists l1 l2,
        patterns = l1 ++ c :: l2
        /\ (forall z, In z l1 ->
              (token_sort_ratio (_normalize_keep_paren text) z
               < token_sort_ratio (_normalize_keep_paren text) c)%Q)
        /\ (forall z, In z l2 ->
              (token_sort_ratio (_normalize_keep_paren text) z
               <= token_sort_ratio (_normalize_keep_paren text) c)%Q))
  /\ n = int_of_score (token_sort_ratio (_normalize_keep_paren text) c)
  /\ (inject_Z (adaptive_threshold c)
      <= token_sort_ratio (_normalize_keep_paren text) c)%Q.
Proof.
  unfold _fuzzy_match. intros H.
  destruct (Py.truthy (_normalize_keep_paren text)); [|discriminate H]. cbn [negb] in H.
  destruct (extractOne token_sort_ratio (_normalize_keep_paren text) patterns)
    as [[c0 s0]|] eqn:E.
  - cbn [unpack] in H.
    assert (Hne : patterns <> []) by (intros ->; discriminate E).
    destruct (extractOne_first_max token_sort_ratio (_normalize_keep_paren text) patterns Hne)
      as (c1 & l1 & l2 & E1 & Hl & Hlt & Hle).
    rewrite E in E1. inversion E1; subst c1 s0.
    destruct c0 as [|y c0]; [discriminate H|]. cbn [Py.truthy negb] in H.
    fold (adaptive_threshold (y :: c0)) in H.
    destruct (Qle_bool _ _) eqn:Eq; [|discriminate H]. inversion H; subst c n.
    split; [discriminate|]. split; [now exists l1, l2|]. split; [reflexivity|].
    now apply Qle_bool_iff.
  - apply extractOne_None in E. subst patterns. discriminate H.
Qed.

(** X7. Whatever the similarity function, a result [(phrase, score)] of the
    fuzzy matcher names a non-empty phrase of the list, the first one of
    highest similarity to the normalized text; the integer score is that
    similarity truncated, and it is at least 88 for a phrase of at most
    two words and at least 82 for a longer one. *)
Theorem fuzzy_match_sound (text : pystr) (patterns : list pystr) (c : pystr) (n : Z) :
  _fuzzy_match token_sort_ratio text patterns = Some (c, n) ->
  c <> []
  /\ (exists l1 l2,
        patterns = l1 ++ c :: l2
        /\ (forall z, In z l1 ->
              (token_sort_ratio (_normalize_keep_paren text) z
               < token_sort_ratio (_normalize_keep_paren text) c)%Q)
        /\ (forall z, In z l2 ->
              (token_sort_ratio (_normalize_keep_paren text) z
               <= token_sort_ratio (_normalize_keep_paren text) c)%Q))
  /\ n = int_of_score (token_sort_ratio (_normalize_keep_paren text) c)
  /\ ((if (length (Py.split c) <=? 2)%nat then 88 else 82) <= n)%Z.
Proof.
  intros H. destruct (fuzzy_match_Some text patterns c n H) as (Hc & Hl & Hn & Hq).
  split; [exact Hc|]. split; [exact Hl|]. split; [exact Hn|].
  subst n. change (adaptive_threshold c <= int_of_score
                     (token_sort_ratio (_normalize_keep_paren text) c))%Z.
  apply int_of_score_lower_bound; [|exact Hq].
  pose proof (adaptive_threshold_bounds c). lia.
Qed.

Lemma lemma_token_match_In (text : pystr) (patterns : list pystr) (p : pystr) :
  _lemma_token_match nlp text patterns = Some p -> In p patterns.
Proof.
  unfold _lemma_token_match. destruct (_lemmatize_tokens nlp text) as [|t0 ts]; [discriminate|].
  cbv zeta.
  match goal with
  | |- match ?a with Some _ => _ | None => ?loop end = _ -> _ =>
      destruct a as [p0|] eqn:E1
  end.
  - intros [= <-]. apply first_some_Some in E1.
    destruct E1 as (l1 & x & l2 & -> & Hx & _). cbv beta in Hx.
    destruct (forallb _ _); [|discriminate Hx]. inversion Hx; subst.
    apply in_or_app. right. now left.
  - intros H. now apply ngram_loop_hit in H.
Qed.

(** X8. Whatever analyzer and similarity function are plugged in, a match
    reported by the category pipeline is of one of four kinds: a family
    key of the detector table with method [regex_complexity]; or a
    non-empty phrase of the list with method [substr], occurring in the
    normalized text; or a non-empty phrase of the list with method
    [lemma]; or a non-empty phrase of the list with method
    [fuzzy:<n>] where n is at least 82.  The text of a match is never
    empty. *)
Theorem matches_any_sound (text : pystr) (patterns : list pystr) (pat method : pystr) :
  _matches_any nlp token_sort_ratio text patterns = Some (pat, method) ->
  text <> []
  /\ ((method = str "regex_complexity" /\ In pat family_keys)
      \/ (method = str "substr" /\ In pat patterns /\ pat <> []
          /\ exists a b, _normalize_keep_paren text = a ++ pat ++ b)
      \/ (method = str "lemma" /\ In pat patterns /\ pat <> [])
      \/ (exists n, method = str "fuzzy:" ++ Py.str_of_int n
                    /\ In pat patterns /\ pat <> [] /\ (82 <= n)%Z)).
Proof.
  unfold _matches_any. destruct text as [|c0 text]; [discriminate|].
  cbn [Py.truthy negb]. intros H. split; [discriminate|].
  destruct (_regex_complexity_detect (c0 :: text)) as [[k tag]|] eqn:Er.
  { inversion H; subst. left. split; [reflexivity|].
    rewrite (detect_tag _ _ _ Er) in Er. apply detect_spec in Er.
    destruct Er as (l1 & rx & l2 & E & _).
    change family_keys with (map fst COMPLEXITY_REGEX). rewrite E, map_app.
    apply in_or_app. right. now left. }
  destruct (_contains_any_substring (c0 :: text) patterns) as [[|x sub]|] eqn:Es.
  2:{ inversion H; subst. right. left. apply contains_any_substring_spec in Es.
      destruct Es as (l1 & l2 & E & Hq & _). split; [reflexivity|].
      split; [rewrite E; apply in_or_app; right; now left|].
      split; [discriminate | now apply contains_iff]. }
  all: destruct (_lemma_token_match nlp (c0 :: text) patterns) as [[|y lm]|] eqn:El.
  all: try (inversion H; subst; right; right; left;
            split; [reflexivity|]; split; [now apply lemma_token_match_In in El | discriminate]).
  all: destruct (_fuzzy_match token_sort_ratio (c0 :: text) patterns) as [[p n]|] eqn:Ef;
       [|discriminate H].
  all: inversion H; subst; right; right; right; exists n;
       destruct (fuzzy_match_Some _ _ _ _ Ef) as (Hc & (l1 & l2 & E & _) & Hn & Hq);
       split; [reflexivity|]; split; [rewrite E; apply in_or_app; right; now left|];
       split; [exact Hc|]; subst n;
       apply int_of_score_lower_bound; [lia|];
       eapply Qle_trans; [|exact Hq];
       pose proof (adaptive_threshold_bounds pat) as Hb;
       unfold Qle; cbn; lia.
Qed.

End StageResults.

(** X7 on a four-word phrase scored 85. *)
Lemma fuzzy_match_sound_witness :
  str "sort each string again" <> []
  /\ (exists l1 l2,
        [str "sort each string again"] = l1 ++ str "sort each string again" :: l2
        /\ (forall z, In z l1 ->
              (ratio_85 (_normalize_keep_paren (str "sorting strings")) z
               < ratio_85 (_normalize_keep_paren (str "sorting strings"))
                   (str "sort each string again"))%Q)
        /\ (forall z, In z l2 ->
              (ratio_85 (_normalize_keep_paren (str "sorting strings")) z
               <= ratio_85 (_normalize_keep_paren (str "sorting strings"))
                    (str "sort each string again"))%Q))
  /\ 85%Z = int_of_score (ratio_85 (_normalize_keep_paren (str "sorting strings"))
                            (str "sort each string again"))
  /\ ((if (length (Py.split (str "sort each string again")) <=? 2)%nat then 88 else 82)
      <= 85)%Z.
Proof.
  apply (fuzzy_match_sound ratio_85 (str "sorting strings") [str "sort each string again"]
           (str "sort each string again") 85%Z).
  vm_compute. reflexivity.
Defined.

(** X8 on the phrase "odd even" found in the text "odd even". *)
Lemma matches_any_sound_witness :
  str "odd even" <> []
  /\ ((str "substr" = str "regex_complexity" /\ In (str "odd even") family_keys)
      \/ (str "substr" = str "substr" /\ In (str "odd even") [str "odd even"]
          /\ str "odd even" <> []
          /\ exists a b, _normalize_keep_paren (str "odd even") = a ++ str "odd even" ++ b)
      \/ (str "substr" = str "lemma" /\ In (str "odd even") [str "odd even"]
          /\ str "odd even" <> [])
      \/ (exists n, str "substr" = str "fuzzy:" ++ Py.str_of_int n
                    /\ In (str "odd even") [str "odd even"] /\ str "odd even" <> []
                    /\ (82 <= n)%Z)).
Proof.
  apply (matches_any_sound None ratio_0 (str "odd even") [str "odd even"]
           (str "odd even") (str "substr")).
  vm_compute. reflexivity.
Defined.

(** ** The lemma stage and the order of words *)

Lemma mem_same (x : pystr) (xs ys : list pystr) :
  (forall w, In w xs <-> In w ys) -> Py.mem x xs = Py.mem x ys.
Proof.
  intros H. destruct (Py.mem x xs) eqn:E1, (Py.mem x ys) eqn:E2; try reflexivity.
  - apply mem_In in E1. apply H in E1. apply mem_In in E1. congruence.
  - apply mem_In in E2. apply H in E2. apply mem_In in E2. congruence.
Qed.

(** X9. With the fallback tokenizer the lemma stage looks at the words of
    the text as a set: two texts with the same tokens, in whatever order
    and number, get the same answer for every phrase list. *)
Theorem lemma_stage_ignores_word_order (t1 t2 : pystr) (patterns : list pystr) :
  (forall w, In w (_lemmatize_tokens None t1) <-> In w (_lemmatize_tokens None t2)) ->
  _lemma_token_match None t1 patterns = _lemma_token_match None t2 patterns.
Proof.
  intros H.
  destruct (_lemmatize_tokens None t1) as [|a1 ts1] eqn:E1.
  - destruct (_lemmatize_tokens None t2) as [|a2 ts2] eqn:E2.
    + unfold _lemma_token_match. now rewrite E1, E2.
    + exfalso. apply (proj2 (H a2)). now left.
  - destruct (_lemmatize_tokens None t2) as [|a2 ts2] eqn:E2.
    + exfalso. apply (proj1 (H a1)). now left.
    + rewrite (lemma_token_match_first_loop None no_pipeline_lemmas_spaceless t1 patterns)
        by (rewrite E1; discriminate).
      rewrite (lemma_token_match_first_loop None no_pipeline_lemmas_spaceless t2 patterns)
        by (rewrite E2; discriminate).
      rewrite E1, E2. apply first_some_ext. intros p _.
      assert (Hf : forallb (fun pt => Py.mem pt (a1 :: ts1)) (Py.split (_normalize_keep_paren p))
                   = forallb (fun pt => Py.mem pt (a2 :: ts2))
                       (Py.split (_normalize_keep_paren p))).
      { induction (Py.split (_normalize_keep_paren p)) as [|pt l IHl]; [reflexivity|].
        cbn [forallb]. now rewrite IHl, (mem_same pt _ _ H). }
      now rewrite Hf.
Qed.

(** X9 on "odd even" and "even odd even". *)
Lemma lemma_stage_ignores_word_order_witness :
  _lemma_token_match None (str "odd even") [str "odd/even"]
  = _lemma_token_match None (str "even odd even") [str "odd/even"].
Proof.
  apply (lemma_stage_ignores_word_order (str "odd even") (str "even odd even")
           [str "odd/even"]).
  intros w. vm_compute. tauto.
Defined.

(** ** More on the pair scorer *)

Section PairScorerMore.

Variable nlp : option (pystr -> list Token).
Variable token_sort_ratio : pystr -> pystr -> Q.

Lemma match_result_shape (m : option (pystr * pystr)) :
  (exists p meth, match_result m = (true, Some p, Some meth))
  \/ match_result m = (false, None, None).
Proof. destruct m as [[p meth]|]; [left; now exists p, meth | now right]. Qed.

(** X10. The two mappings [score_pair] returns have exactly the listed
    categories as keys, and each entry is either (True, pattern, method)
    with both present or (False, None, None). *)
Theorem score_pair_keys_and_entries (peer teacher : option pystr) (ms : list pystr) :
  exists r,
    score_pair nlp token_sort_ratio peer teacher ms = inr r
    /\ (forall m, is_Some (peer_detected r !! m) <-> In m ms)
    /\ (forall m, is_Some (teacher_fixed r !! m) <-> In m ms)
    /\ (forall m e,
          peer_detected r !! m = Some e \/ teacher_fixed r !! m = Some e ->
          (exists p meth, e = (true, Some p, Some meth)) \/ e = (false, None, None)).
Proof.
  destruct (score_pair_returns nlp token_sort_ratio peer teacher ms)
    as (r & Hr & Hin & Hout & _).
  exists r. split; [exact Hr|].
  assert (Hdec : forall m, In m ms \/ ~ In m ms).
  { intros m. destruct (decide (m ∈ ms)) as [H|H]; rewrite list_elem_of_In in H; tauto. }
  split; [|split].
  - intros m. destruct (Hdec m) as [H|H].
    + destruct (Hin m H) as [Hp _]. split; [easy|]. intros _. eexists. exact Hp.
    + destruct (Hout m H) as [Hp _]. split; [|easy]. intros [e He]. congruence.
  - intros m. destruct (Hdec m) as [H|H].
    + destruct (Hin m H) as [_ Ht]. split; [easy|]. intros _. eexists. exact Ht.
    + destruct (Hout m H) as [_ Ht]. split; [|easy]. intros [e He]. congruence.
  - intros m e He. destruct (Hdec m) as [H|H].
    + destruct (Hin m H) as [Hp Ht].
      destruct He as [He|He];
        [pose proof (eq_trans (eq_sym He) Hp) as E | pose proof (eq_trans (eq_sym He) Ht) as E];
        inversion E; apply match_result_shape.
    + destruct (Hout m H) as [Hp Ht].
      destruct He as [He|He];
        [pose proof (eq_trans (eq_sym He) Hp) as E | pose proof (eq_trans (eq_sym He) Ht) as E];
        discriminate E.
Qed.

Lemma bool_eq_iff (a b : bool) : (a = true <-> b = true) -> a = b.
Proof. destruct a, b; intuition congruence. Qed.

(** X11. The result of [score_pair] depends on the set of expected
    categories only: lists with the same members, in any order and with
    any repetitions, give the same mappings and the same [pass]. *)
Theorem score_pair_ignores_order_and_repeats
    (peer teacher : option pystr) (ms ms' : list pystr) :
  (forall m, In m ms <-> In m ms') ->
  score_pair nlp token_sort_ratio peer teacher ms
  = score_pair nlp token_sort_ratio peer teacher ms'.
Proof.
  intros Hsame.
  destruct (score_pair_returns nlp token_sort_ratio peer teacher ms)
    as ([pd tf ps] & Hr & Hin & Hout & Hpass).
  destruct (score_pair_returns nlp token_sort_ratio peer teacher ms')
    as ([pd' tf' ps'] & Hr' & Hin' & Hout' & Hpass').
  rewrite Hr, Hr'. cbn [peer_detected teacher_fixed pass] in *.
  assert (Hdec : forall m, In m ms \/ ~ In m ms).
  { intros m. destruct (decide (m ∈ ms)) as [H|H]; rewrite list_elem_of_In in H; tauto. }
  assert (Epd : pd = pd').
  { apply map_eq. intros m. destruct (Hdec m) as [H|H].
    - destruct (Hin m H) as [-> _]. destruct (Hin' m (proj1 (Hsame m) H)) as [-> _].
      reflexivity.
    - destruct (Hout m H) as [-> _].
      assert (H' : ~ In m ms') by (intros X; apply H; now apply Hsame).
      now destruct (Hout' m H') as [-> _]. }
  assert (Etf : tf = tf').
  { apply map_eq. intros m. destruct (Hdec m) as [H|H].
    - destruct (Hin m H) as [_ ->]. destruct (Hin' m (proj1 (Hsame m) H)) as [_ ->].
      reflexivity.
    - destruct (Hout m H) as [_ ->].
      assert (H' : ~ In m ms') by (intros X; apply H; now apply Hsame).
      now destruct (Hout' m H') as [_ ->]. }
  assert (Eps : ps = ps').
  { apply bool_eq_iff. rewrite Hpass, Hpass'. split; intros H m Hm; apply H; now apply Hsame. }
  now subst.
Qed.

(** X12. Scoring a concatenation of category lists passes exactly when
    scoring each list passes. *)
Theorem score_pair_pass_of_concatenation
    (peer teacher : option pystr) (ms1 ms2 : list pystr) :
  exists r1 r2 r,
    score_pair nlp token_sort_ratio peer teacher ms1 = inr r1
    /\ score_pair nlp token_sort_ratio peer teacher ms2 = inr r2
    /\ score_pair nlp token_sort_ratio peer teacher (ms1 ++ ms2) = inr r
    /\ pass r = pass r1 && pass r2.
Proof.
  destruct (score_pair_returns nlp token_sort_ratio peer teacher ms1)
    as (r1 & Hr1 & _ & _ & Hp1).
  destruct (score_pair_returns nlp token_sort_ratio peer teacher ms2)
    as (r2 & Hr2 & _ & _ & Hp2).
  destruct (score_pair_returns nlp token_sort_ratio peer teacher (ms1 ++ ms2))
    as (r & Hr & _ & _ & Hp).
  exists r1, r2, r. repeat (split; [assumption|]).
  apply bool_eq_iff. rewrite andb_true_iff, Hp, Hp1, Hp2. split.
  - intros H. split; intros m Hm; apply H; apply in_or_app; tauto.
  - intros [H1 H2] m Hm. apply in_app_or in Hm. destruct Hm; auto.
Qed.

Lemma matches_any_regex (text k tag : pystr) (patterns : list pystr) :
  _regex_complexity_detect text = Some (k, tag) ->
  _matches_any nlp token_sort_ratio text patterns = Some (k, str "regex_complexity").
Proof.
  intros H. unfold _matches_any.
  destruct text as [|c text]; [now rewrite detect_empty in H|].
  cbn [Py.truthy negb]. now rewrite H.
Qed.

(** X13. When the complexity detector fires on the peer text and on the
    teacher text, [score_pair] passes for every list of categories, known
    or unknown, and reports [regex_complexity] on both sides of every
    listed category. *)
Theorem complexity_notation_passes_every_category
    (peer teacher : option pystr) (kp kt : pystr) (ms : list pystr) :
  _regex_complexity_detect (Py.or_empty peer) = Some (kp, str "regex") ->
  _regex_complexity_detect (Py.or_empty teacher) = Some (kt, str "regex") ->
  exists r,
    score_pair nlp token_sort_ratio peer teacher ms = inr r
    /\ pass r = true
    /\ forall m, In m ms ->
         peer_detected r !! m = Some (true, Some kp, Some (str "regex_complexity"))
         /\ teacher_fixed r !! m = Some (true, Some kt, Some (str "regex_complexity")).
Proof.
  intros Hp Ht.
  destruct (score_pair_returns nlp token_sort_ratio peer teacher ms)
    as (r & Hr & Hin & _ & Hpass).
  exists r. split; [exact Hr|].
  assert (Hm : forall m, In m ms ->
            peer_detected r !! m = Some (true, Some kp, Some (str "regex_complexity"))
            /\ teacher_fixed r !! m = Some (true, Some kt, Some (str "regex_complexity"))).
  { intros m Hm. destruct (Hin m Hm) as [H1 H2].
    rewrite (matches_any_regex _ _ _ _ Hp) in H1.
    rewrite (matches_any_regex _ _ _ _ Ht) in H2. split; assumption. }
  split; [|exact Hm].
  apply Hpass. intros m Hin'.
  rewrite (matches_any_regex _ _ _ _ Hp), (matches_any_regex _ _ _ _ Ht). now split.
Qed.

(** X14. One empty or missing text is enough to fail: with an empty peer
    text or an empty teacher text, [score_pair] does not pass any
    non-empty list of categories. *)
Theorem empty_side_fails (peer teacher : option pystr) (ms : list pystr) :
  Py.or_empty peer = [] \/ Py.or_empty teacher = [] ->
  ms <> [] ->
  exists r, score_pair nlp token_sort_ratio peer teacher ms = inr r /\ pass r = false.
Proof.
  intros Hside Hne.
  destruct (score_pair_returns nlp token_sort_ratio peer teacher ms)
    as (r & Hr & _ & _ & Hpass).
  exists r. split; [exact Hr|]. destruct (pass r); [|reflexivity].
  destruct ms as [|m ms]; [easy|].
  destruct (proj1 Hpass eq_refl m (or_introl eq_refl)) as [H1 H2].
  destruct Hside as [E|E]; rewrite E in *.
  - now rewrite matches_any_empty in H1.
  - now rewrite matches_any_empty in H2.
Qed.

End PairScorerMore.

(** X11 on two orderings with a repetition. *)
Lemma score_pair_ignores_order_and_repeats_witness :
  score_pair None ratio_0 (Some (str "it is O(n^2)")) (Some (str "no, O(n)"))
    [str "complexity"; str "inefficient"]
  = score_pair None ratio_0 (Some (str "it is O(n^2)")) (Some (str "no, O(n)"))
      [str "inefficient"; str "complexity"; str "inefficient"].
Proof.
  apply (score_pair_ignores_order_and_repeats None ratio_0
           (Some (str "it is O(n^2)")) (Some (str "no, O(n)"))
           [str "complexity"; str "inefficient"]
           [str "inefficient"; str "complexity"; str "inefficient"]).
  intros m. cbn [In]. tauto.
Defined.

(** X13 on the texts of the selection sort test and an unknown category. *)
Lemma complexity_notation_passes_every_category_witness :
  exists r,
    score_pair None ratio_0
      (Some (str "Selection sort is O(n log n) and very efficient."))
      (Some (str "Selection sort is O(n^2), not O(n log n)."))
      [str "no_such_category"] = inr r
    /\ pass r = true
    /\ forall m, In m [str "no_such_category"] ->
         peer_detected r !! m = Some (true, Some (str "linear"), Some (str "regex_complexity"))
         /\ teacher_fixed r !! m
            = Some (true, Some (str "quadratic"), Some (str "regex_complexity")).
Proof.
  apply (complexity_notation_passes_every_category None ratio_0
           (Some (str "Selection sort is O(n log n) and very efficient."))
           (Some (str "Selection sort is O(n^2), not O(n log n)."))
           (str "linear") (str "quadratic") [str "no_such_category"]);
    vm_compute; reflexivity.
Defined.

(** X14 on an empty teacher text. *)
Lemma empty_side_fails_witness :
  exists r,
    score_pair None ratio_0 (Some (str "it is O(n^2)")) None [str "complexity"] = inr r
    /\ pass r = false.
Proof.
  apply (empty_side_fails None ratio_0 (Some (str "it is O(n^2)")) None [str "complexity"]).
  - right. reflexivity.
  - discriminate.
Defined.

(** ** The session store *)

Section SessionStoreFacts.

Import SessionStore.

Variables Meta Turn : Type.

Local Abbreviation store := (gmap string (entry Meta Turn)).

Lemma set_transcript_lookup (s : store) (sid : string) (tr : list Turn) :
  (forall sid', exists_ Meta Turn (set_transcript Meta Turn s sid tr) sid'
                = exists_ Meta Turn s sid')
  /\ (forall sid',
        get_transcript Meta Turn (set_transcript Meta Turn s sid tr) sid'
        = if decide (sid' = sid) then
            (if exists_ Meta Turn s sid then Some tr else None)
          else get_transcript Meta Turn s sid').
Proof.
  unfold exists_, get_transcript, set_transcript. split; intros sid'.
  - destruct (s !! sid) as [e|] eqn:E; [|reflexivity].
    destruct (decide (sid' = sid)) as [->|Hne].
    + now rewrite lookup_insert_eq, E.
    + now rewrite lookup_insert_ne by congruence.
  - destruct (decide (sid' = sid)) as [->|Hne].
    + destruct (s !! sid) as [e|] eqn:E; [now rewrite lookup_insert_eq | now rewrite E].
    + destruct (s !! sid) as [e|] eqn:E; [|reflexivity].
      now rewrite lookup_insert_ne by congruence.
Qed.

Lemma create_session_lookup (s : store) (sid : string) (m : Meta) :
  (forall sid', exists_ Meta Turn (create_session Meta Turn s sid m) sid'
                = if decide (sid' = sid) then true else exists_ Meta Turn s sid')
  /\ (forall sid',
        get_transcript Meta Turn (create_session Meta Turn s sid m) sid'
        = if decide (sid' = sid) then None else get_transcript Meta Turn s sid').
Proof.
  unfold exists_, get_transcript, create_session. split; intros sid';
    destruct (decide (sid' = sid)) as [->|Hne];
    try (now rewrite lookup_insert_eq); now rewrite lookup_insert_ne by congruence.
Qed.

(** X15. [set_transcript] never creates a session: it leaves the set of
    existing sessions as it was, and on an unknown id it leaves the whole
    store as it was.  On a session that exists, [get_transcript] then
    returns the transcript just stored; the transcripts of all other
    sessions stay as they were. *)
Theorem set_transcript_round_trip (s : store) (sid : string) (tr : list Turn) :
  (forall sid', exists_ Meta Turn (set_transcript Meta Turn s sid tr) sid'
                = exists_ Meta Turn s sid')
  /\ (exists_ Meta Turn s sid = true ->
      get_transcript Meta Turn (set_transcript Meta Turn s sid tr) sid = Some tr)
  /\ (exists_ Meta Turn s sid = false -> set_transcript Meta Turn s sid tr = s)
  /\ (forall sid', sid' <> sid ->
        get_transcript Meta Turn (set_transcript Meta Turn s sid tr) sid'
        = get_transcript Meta Turn s sid').
Proof.
  destruct (set_transcript_lookup s sid tr) as [He Hg].
  split; [exact He|]. split; [|split].
  - intros Hex. rewrite Hg, Hex. now destruct (decide (sid = sid)).
  - unfold exists_, set_transcript. now destruct (s !! sid).
  - intros sid' Hne. rewrite Hg. now destruct (decide (sid' = sid)).
Qed.

(** X16. [create_session] makes its id exist and forgets any transcript
    stored under that id, so that [get_transcript] returns [None] for it;
    every other session keeps its existence and its transcript. *)
Theorem create_session_resets (s : store) (sid : string) (m : Meta) :
  exists_ Meta Turn (create_session Meta Turn s sid m) sid = true
  /\ get_transcript Meta Turn (create_session Meta Turn s sid m) sid = None
  /\ (forall sid', sid' <> sid ->
        exists_ Meta Turn (create_session Meta Turn s sid m) sid' = exists_ Meta Turn s sid'
        /\ get_transcript Meta Turn (create_session Meta Turn s sid m) sid'
           = get_transcript Meta Turn s sid').
Proof.
  destruct (create_session_lookup s sid m) as [He Hg].
  split; [|split].
  - rewrite He. now destruct (decide (sid = sid)).
  - rewrite Hg. now destruct (decide (sid = sid)).
  - intros sid' Hne. rewrite He, Hg. now destruct (decide (sid' = sid)).
Qed.

Lemma fold_left_snoc {A B} (f : A -> B -> A) (xs : list B) (x : B) (a : A) :
  fold_left f (xs ++ [x]) a = f (fold_left f xs a) x.
Proof. now rewrite fold_left_app. Qed.

Lemma exists_was_created (calls : list (call Meta Turn)) (sid : string) :
  exists_ Meta Turn (fold_left (run_call Meta Turn) calls (init Meta Turn)) sid = true ->
  exists m, In (CreateSession Meta Turn sid m) calls.
Proof.
  induction calls as [|c calls IH] using rev_ind.
  - unfold exists_, init. cbn. now rewrite lookup_empty.
  - rewrite fold_left_snoc. intros H.
    assert (Hold : exists_ Meta Turn (fold_left (run_call Meta Turn) calls (init Meta Turn)) sid
                   = true -> exists m, In (CreateSession Meta Turn sid m) (calls ++ [c])).
    { intros H0. destruct (IH H0) as (m & Hm). exists m. apply in_or_app. now left. }
    destruct c as [sid' m|sid' tr]; cbn [run_call] in H.
    + destruct (create_session_lookup
                  (fold_left (run_call Meta Turn) calls (init Meta Turn)) sid' m) as [He _].
      rewrite He in H. destruct (decide (sid = sid')) as [->|Hne]; [|now apply Hold].
      exists m. apply in_or_app. right. now left.
    + destruct (set_transcript_lookup
                  (fold_left (run_call Meta Turn) calls (init Meta Turn)) sid' tr) as [He _].
      rewrite He in H. now apply Hold.
Qed.

(** X17. Whatever calls were made on a fresh store, a transcript that
    [get_transcript] returns for an id is the one given to the last
    [set_transcript] on that id; that id was created before, and neither
    created again nor set again since. *)
Theorem get_transcript_history (calls : list (call Meta Turn)) (sid : string)
    (tr : list Turn) :
  get_transcript Meta Turn (fold_left (run_call Meta Turn) calls (init Meta Turn)) sid
  = Some tr ->
  exists before since,
    calls = before ++ SetTranscript Meta Turn sid tr :: since
    /\ (exists m, In (CreateSession Meta Turn sid m) before)
    /\ Forall (fun c => ~ touches Meta Turn sid c) since.
Proof.
  induction calls as [|c calls IH] using rev_ind.
  - unfold get_transcript, init. cbn. now rewrite lookup_empty.
  - rewrite fold_left_snoc. intros H.
    set (s := fold_left (run_call Meta Turn) calls (init Meta Turn)) in *.
    assert (Hold : get_transcript Meta Turn s sid = Some tr -> ~ touches Meta Turn sid c ->
                   exists before since,
                     calls ++ [c] = before ++ SetTranscript Meta Turn sid tr :: since
                     /\ (exists m, In (CreateSession Meta Turn sid m) before)
                     /\ Forall (fun c => ~ touches Meta Turn sid c) since).
    { intros H0 Hc. destruct (IH H0) as (before & since & -> & Hm & Hs).
      exists before, (since ++ [c]). split; [now rewrite <- app_assoc|].
      split; [exact Hm|]. apply List.Forall_app. split; [exact Hs | now constructor]. }
    destruct c as [sid' m|sid' tr']; cbn [run_call] in H.
    + destruct (create_session_lookup s sid' m) as [_ Hg]. rewrite Hg in H.
      destruct (decide (sid = sid')) as [->|Hne]; [discriminate H|].
      apply Hold; [exact H|]. cbn. congruence.
    + destruct (set_transcript_lookup s sid' tr') as [_ Hg]. rewrite Hg in H.
      destruct (decide (sid = sid')) as [->|Hne].
      * destruct (exists_ Meta Turn s sid') eqn:Ex; [|discriminate H].
        inversion H; subst tr'. exists calls, []. split; [reflexivity|].
        split; [now apply exists_was_created | constructor].
      * apply Hold; [exact H|]. cbn. congruence.
Qed.

End SessionStoreFacts.

(** X17 on a store with one session created and its transcript set. *)
Lemma get_transcript_history_witness :
  exists before since,
    [SessionStore.CreateSession nat nat "s1" 0; SessionStore.SetTranscript nat nat "s1" [1; 2]]
    = before ++ SessionStore.SetTranscript nat nat "s1" [1; 2] :: since
    /\ (exists m, In (SessionStore.CreateSession nat nat "s1" m) before)
    /\ Forall (fun c => ~ SessionStore.touches nat nat "s1" c) since.
Proof.
  apply (get_transcript_history nat nat
           [SessionStore.CreateSession nat nat "s1" 0;
            SessionStore.SetTranscript nat nat "s1" [1; 2]] "s1" [1; 2]).
  vm_compute. reflexivity.
Defined.

(** ** The session routes *)

Section Routes.

Import App.

Local Abbreviation sessions := (gmap string (list TranscriptTurn)).

Lemma start_session_turns (s : sessions) (req : StartSessionRequest) (sid now : string) :
  well_numbered sid (response_transcript (snd (start_session s req sid now))).
Proof.
  unfold start_session. cbn [snd response_transcript].
  destruct (simulate req); split; cbn; repeat constructor.
Qed.

Lemma start_session_store (s : sessions) (req : StartSessionRequest) (sid now : string) :
  fst (start_session s req sid now)
  = <[sid := response_transcript (snd (start_session s req sid now))]> s.
Proof. reflexivity. Qed.

Lemma well_numbered_step (sid now : string) (turns : list TranscriptTurn) :
  well_numbered sid turns ->
  well_numbered sid
    (turns ++ [ {| session_id := sid; turn_id := Z.of_nat (length turns) + 1;
                   agent := "TeacherAgent"; role := "teacher_reply";
                   content := "(Simulated) advancing session one step...";
                   timestamp := now |} ]).
Proof.
  intros [Hid Hsid]. split.
  - rewrite map_app, length_app, Hid. cbn [map length].
    rewrite Nat.add_1_r, seq_S, map_app. cbn [map turn_id]. do 2 f_equal. lia.
  - apply List.Forall_app. split; [exact Hsid | now repeat constructor].
Qed.

Lemma after_keeps_numbering (s : sessions) (r : request) :
  (forall sid turns, s !! sid = Some turns -> well_numbered sid turns) ->
  forall sid turns, after s r !! sid = Some turns -> well_numbered sid turns.
Proof.
  intros Hs sid turns. destruct r as [req sid' now|sid'|sid' now]; cbn [after].
  - rewrite start_session_store. destruct (decide (sid' = sid)) as [->|Hne].
    + rewrite lookup_insert_eq. intros [= <-]. exact (start_session_turns s req sid now).
    + rewrite lookup_insert_ne by exact Hne. apply Hs.
  - apply Hs.
  - unfold step_session. destruct (s !! sid') as [old|] eqn:E; [|apply Hs].
    cbn [fst]. destruct (decide (sid' = sid)) as [->|Hne].
    + rewrite lookup_insert_eq. intros [= <-]. apply well_numbered_step. now apply Hs.
    + rewrite lookup_insert_ne by exact Hne. apply Hs.
Qed.

(** X18. Whatever requests a freshly started server has answered, every
    stored transcript is numbered 1, 2, ..., n in order, without gap or
    repetition, and each of its turns carries the id of the session it is
    stored under. *)
Theorem transcripts_stay_numbered (rs : list request) (sid : string)
    (turns : list TranscriptTurn) :
  serve rs !! sid = Some turns -> well_numbered sid turns.
Proof.
  unfold serve. revert sid turns. induction rs as [|r rs IH] using rev_ind.
  - intros sid turns. cbn. now rewrite lookup_empty.
  - rewrite fold_left_snoc. now apply after_keeps_numbering.
Qed.

Lemma after_known (s : sessions) (r : request) (sid : string) :
  is_Some (after s r !! sid)
  <-> is_Some (s !! sid)
      \/ exists req now, r = StartSession req sid now.
Proof.
  destruct r as [req sid' now|sid'|sid' now]; cbn [after].
  - rewrite start_session_store. destruct (decide (sid' = sid)) as [->|Hne].
    + rewrite lookup_insert_eq. split; [|now eexists]. intros _. right. now exists req, now.
    + rewrite lookup_insert_ne by exact Hne. split; [tauto|].
      intros [H|(req' & now' & E)]; [exact H | congruence].
  - split; [tauto|]. intros [H|(req' & now' & E)]; [exact H | discriminate E].
  - unfold step_session.
    assert (Hs : is_Some (match s !! sid' with
                          | Some turns =>
                              <[sid' := turns ++ [ {| session_id := sid';
                                  turn_id := Z.of_nat (length turns) + 1;
                                  agent := "TeacherAgent"; role := "teacher_reply";
                                  content := "(Simulated) advancing session one step...";
                                  timestamp := now |} ]]> s
                          | None => s
                          end !! sid) <-> is_Some (s !! sid)).
    { destruct (s !! sid') as [old|] eqn:E; [|tauto].
      destruct (decide (sid' = sid)) as [->|Hne].
      - rewrite lookup_insert_eq, E. split; intros _; now eexists.
      - now rewrite lookup_insert_ne by exact Hne. }
    destruct (s !! sid') as [old|] eqn:E; cbn [fst] in *.
    + rewrite Hs. split; [tauto|]. intros [H|(req' & now' & E')]; [exact H | discriminate E'].
    + split; [tauto|]. intros [H|(req' & now' & E')]; [exact H | discriminate E'].
Qed.

Lemma known_iff_started (rs : list request) (sid : string) :
  is_Some (serve rs !! sid) <-> started sid rs.
Proof.
  unfold serve, started. induction rs as [|r rs IH] using rev_ind.
  - cbn. rewrite lookup_empty. split; [intros [x H]; discriminate H|].
    intros (req & now & []).
  - rewrite fold_left_snoc, after_known, IH. split.
    + intros [(req & now & H)|(req & now & E)]; exists req, now; apply in_or_app;
        [now left | right; left; now symmetry].
    + intros (req & now & H). apply in_app_or in H. destruct H as [H|[E|[]]].
      * left. now exists req, now.
      * right. now exists req, now.
Qed.

(** X19. A session is known to the server exactly when some request
    started it: [get_session] and [step_session] answer an id that was
    started, and answer 404 "session not found" to every other id; reads
    and steps never create a session. *)
Theorem sessions_exist_iff_started (rs : list request) (sid : string) :
  (started sid rs ->
   (exists turns, get_session (serve rs) sid
                  = inr {| response_session_id := sid; response_transcript := turns |})
   /\ forall now, exists store r, step_session (serve rs) sid now = inr (store, r))
  /\ (~ started sid rs ->
      get_session (serve rs) sid = inl (HTTP 404 "session not found")
      /\ forall now, step_session (serve rs) sid now = inl (HTTP 404 "session not found")).
Proof.
  pose proof (known_iff_started rs sid) as H. unfold get_session, step_session.
  destruct (serve rs !! sid) as [turns|] eqn:E.
  - split.
    + intros _. split; [now exists turns|]. intros now. now eexists _, _.
    + intros Hn. exfalso. apply Hn, H. now eexists.
  - split.
    + intros Hs. apply H in Hs. destruct Hs as [x Hx]. discriminate Hx.
    + intros _. now split.
Qed.

(** X20. A transcript only grows at its end: after any requests that do
    not start the session again, its stored transcript is the former one
    followed by one TeacherAgent turn for each step request on that
    session, and by nothing else. *)
Theorem transcripts_grow_by_steps (rs : list request) (s : sessions) (sid : string)
    (turns : list TranscriptTurn) :
  s !! sid = Some turns ->
  ~ started sid rs ->
  exists added,
    fold_left after rs s !! sid = Some (turns ++ added)
    /\ length added = steps_on sid rs
    /\ Forall (fun t => agent t = "TeacherAgent"%string) added.
Proof.
  revert s turns. induction rs as [|r rs IH]; intros s turns Hs Hn.
  - exists []. rewrite app_nil_r. now repeat split.
  - assert (Hn' : ~ started sid rs).
    { intros (req & now & H). apply Hn. exists req, now. now right. }
    cbn [fold_left]. destruct r as [req sid' now|sid'|sid' now].
    + assert (Hne : sid' <> sid).
      { intros ->. apply Hn. exists req, now. now left. }
      destruct (IH (after s (StartSession req sid' now)) turns) as (added & H1 & H2 & H3);
        [cbn [after]; rewrite start_session_store, lookup_insert_ne by exact Hne; exact Hs
        | exact Hn' |].
      exists added. now repeat split.
    + destruct (IH s turns Hs Hn') as (added & H1 & H2 & H3). exists added. now repeat split.
    + destruct (String.eqb sid' sid) eqn:Eq.
      * apply String.eqb_eq in Eq. subst sid'.
        set (t := {| session_id := sid; turn_id := Z.of_nat (length turns) + 1;
                     agent := "TeacherAgent"; role := "teacher_reply";
                     content := "(Simulated) advancing session one step...";
                     timestamp := now |}).
        destruct (IH (after s (StepSession sid now)) (turns ++ [t])) as (added & H1 & H2 & H3);
          [cbn [after]; unfold step_session; rewrite Hs; cbn [fst];
           now rewrite lookup_insert_eq
          | exact Hn' |].
        exists (t :: added). split; [now rewrite H1, <- app_assoc|].
        split; [|now constructor].
        unfold steps_on in *. cbn [List.filter]. rewrite String.eqb_refl. cbn [length].
        now rewrite H2.
      * assert (Hne : sid' <> sid) by (intros ->; now rewrite String.eqb_refl in Eq).
        destruct (IH (after s (StepSession sid' now)) turns) as (added & H1 & H2 & H3);
          [cbn [after]; unfold step_session; destruct (s !! sid') as [old|];
           [cbn [fst]; now rewrite lookup_insert_ne by exact Hne | exact Hs]
          | exact Hn' |].
        exists added. split; [exact H1|]. split; [|exact H3].
        unfold steps_on in *. cbn [List.filter]. now rewrite Eq.
Qed.

End Routes.

(** X18 on a simulated start followed by a step. *)
Lemma transcripts_stay_numbered_witness :
  App.well_numbered "s1"
    (snd (App.start_session ∅
            {| App.topic := "recursion"; App.difficulty := "easy";
               App.question_text := None; App.simulate := true |} "s1" "t0")).(App.response_transcript).
Proof.
  apply (transcripts_stay_numbered
           [App.StartSession
              {| App.topic := "recursion"; App.difficulty := "easy";
                 App.question_text := None; App.simulate := true |} "s1" "t0";
            App.GetSession "s1"] "s1").
  vm_compute. reflexivity.
Defined.

(** X20 on two steps after a start without simulation. *)
Lemma transcripts_grow_by_steps_witness :
  exists added,
    fold_left App.after [App.StepSession "s1" "t1"; App.StepSession "s2" "t2";
                         App.StepSession "s1" "t3"] {[ "s1" := [] ]} !! "s1"
    = Some ([] ++ added)
    /\ length added
       = App.steps_on "s1" [App.StepSession "s1" "t1"; App.StepSession "s2" "t2";
                            App.StepSession "s1" "t3"]
    /\ Forall (fun t => App.agent t = "TeacherAgent"%string) added.
Proof.
  apply (transcripts_grow_by_steps
           [App.StepSession "s1" "t1"; App.StepSession "s2" "t2"; App.StepSession "s1" "t3"]
           {[ "s1" := [] ]} "s1" []).
  - vm_compute. reflexivity.
  - intros (req & now & H). cbn [In] in H. intuition discriminate.
Defined.

(** ** The orchestrator's hint and canned teacher replies *)

Lemma contains_longer (p pre post s : pystr) :
  Py.contains (pre ++ p ++ post) s = true -> Py.contains p s = true.
Proof.
  rewrite !contains_iff. intros (a & b & ->). exists (a ++ pre), (post ++ b).
  now rewrite <- !app_assoc.
Qed.

(** X21. A hint returned by [_extract_mistake_hint] is always a category
    that both indicator tables of the scorer know. *)
Theorem hint_is_a_known_category (peer_prompt : option pystr) (k : pystr) :
  _extract_mistake_hint peer_prompt = Some k ->
  is_Some (PEER_INDICATORS !! k) /\ is_Some (TEACHER_INDICATORS !! k).
Proof.
  unfold _extract_mistake_hint.
  destruct (negb _); [discriminate|].
  repeat match goal with
         | |- context [if ?c then _ else _] => destruct c
         end;
    intros H; try discriminate H; inversion H; subst k;
    split; vm_compute; eexists; reflexivity.
Qed.

(** X21 on a prompt that mentions an off-by-one error. *)
Lemma hint_is_a_known_category_witness :
  is_Some (PEER_INDICATORS !! str "off_by_one")
  /\ is_Some (TEACHER_INDICATORS !! str "off_by_one").
Proof.
  apply (hint_is_a_known_category (Some (str "Insert an Off-By-One error.")) (str "off_by_one")).
  vm_compute. reflexivity.
Defined.

(** X22. The hint is "complexity" exactly when the prompt, lower-cased,
    contains the word "complexity"; whatever else the prompt mentions
    then plays no part, and the test for "wrong time complexity" adds
    nothing. *)
Theorem hint_complexity_iff (peer_prompt : option pystr) :
  _extract_mistake_hint peer_prompt = Some (str "complexity")
  <-> exists a b, Py.lower (Py.or_empty peer_prompt) = a ++ str "complexity" ++ b.
Proof.
  rewrite <- contains_iff. unfold _extract_mistake_hint.
  destruct (Py.or_empty peer_prompt) as [|c p] eqn:E.
  - cbn. split; discriminate.
  - cbn [Py.truthy negb].
    set (txt := Py.lower (c :: p)).
    destruct (Py.contains (str "complexity") txt) eqn:Hc.
    + rewrite orb_true_r. now split.
    + assert (Hw : Py.contains (str "wrong time complexity") txt = false).
      { destruct (Py.contains (str "wrong time complexity") txt) eqn:Hw; [|reflexivity].
        apply (contains_longer (str "complexity") (str "wrong time ") []) in Hw.
        congruence. }
      rewrite Hw. cbn [orb].
      repeat match goal with
             | |- context [if ?c then _ else _] => destruct c
             end; split; discriminate.
Qed.

Section TeacherReplies.

Variable nlp : option (pystr -> list Token).
Variable token_sort_ratio : pystr -> pystr -> Q.

(** X23. The canned teacher replies are corrections in the eyes of the
    scorer, whatever analyzer and similarity function are plugged in.
    For a question mentioning "fib" the reply is matched by
    [regex_complexity] (family exponential) against every phrase list;
    for a question mentioning selection sort and none of the earlier
    topics it is matched by [regex_complexity] (family quadratic) against
    every phrase list; for a question on nested lists it is matched by
    [substr] on "base case" against the teacher phrases of
    [missing_base_case]. *)
Theorem canned_teacher_replies_are_recognized
    (question_text peer_text learner_input : option pystr) :
  (Py.contains (str "fib") (Py.lower (Py.or_empty question_text)) = true ->
   forall patterns,
     _matches_any nlp token_sort_ratio
       (_teacher_reply_for question_text peer_text learner_input) patterns
     = Some (str "exponential", str "regex_complexity"))
  /\ (Py.contains (str "fib") (Py.lower (Py.or_empty question_text)) = false ->
      Py.contains (str "sum_nested") (Py.lower (Py.or_empty question_text))
      || Py.contains (str "nested list") (Py.lower (Py.or_empty question_text)) = true ->
      _matches_any nlp token_sort_ratio
        (_teacher_reply_for question_text peer_text learner_input)
        (indicators TEACHER_INDICATORS (str "missing_base_case"))
      = Some (str "base case", str "substr"))
  /\ (Py.contains (str "fib") (Py.lower (Py.or_empty question_text)) = false ->
      Py.contains (str "sum_nested") (Py.lower (Py.or_empty question_text))
      || Py.contains (str "nested list") (Py.lower (Py.or_empty question_text)) = false ->
      Py.contains (str "selection_sort") (Py.lower (Py.or_empty question_text))
      || Py.contains (str "selection sort") (Py.lower (Py.or_empty question_text)) = true ->
      forall patterns,
        _matches_any nlp token_sort_ratio
          (_teacher_reply_for question_text peer_text learner_input) patterns
        = Some (str "quadratic", str "regex_complexity")).
Proof.
  unfold _teacher_reply_for.
  set (q := Py.lower (Py.or_empty question_text)).
  assert (Hfib : Py.contains (str "fib") q = false -> Py.contains (str "fibonacci") q = false).
  { intros H. destruct (Py.contains (str "fibonacci") q) eqn:E; [|reflexivity].
    apply (contains_longer (str "fib") [] (str "onacci")) in E. congruence. }
  split; [|split].
  - intros H patterns. rewrite H. cbn [orb].
    apply (matches_any_regex nlp token_sort_ratio _ _ (str "regex")).
    vm_compute. reflexivity.
  - intros H Hs. rewrite H, (Hfib H), Hs. cbn [orb].
    unfold _matches_any. cbn [str list_ascii_of_string Py.truthy negb].
    match goal with
    | |- context [_regex_complexity_detect ?t] =>
        replace (_regex_complexity_detect t) with (@None (pystr * pystr))
          by (vm_compute; reflexivity);
        replace (_contains_any_substring t
                   (indicators TEACHER_INDICATORS
                      (list_ascii_of_string "missing_base_case")))
          with (Some (str "base case")) by (vm_compute; reflexivity)
    end.
    reflexivity.
  - intros H Hs Hsel patterns. rewrite H, (Hfib H), Hs, Hsel. cbn [orb].
    apply (matches_any_regex nlp token_sort_ratio _ _ (str "regex")).
    vm_compute. reflexivity.
Qed.

End TeacherReplies.
